(** * TeamText front end: the chat view and the admin page

    A shallow embedding of [frontend/src/TextChat.js] and of
    [frontend/src/AdminPage.js], with the properties of the message store,
    the hide timers, the progress value, the socket handlers and what is
    displayed, and of the participant poll, the settings form and the
    selection of a participant.

    The file has two parts.  Part I holds the definitions: the fragment of
    JavaScript the components use ([Js], [Double]), the insertion-ordered
    [Map] ([JsMap]), the chat view ([Message], [TextChat]), what React
    renders of it ([React], [ChatRender]), the admin page ([AdminPage],
    [AdminControls]), the vocabulary of the
    properties ([Store], [View], [Timers], [Requests]) and sample views and
    pages ([Examples], [AdminExamples], [MoreExamples], [PageExamples]).
    Part II holds the lemmas and the theorems. *)

From stdpp Require Import base strings gmap list.
From Stdlib Require Import Ascii String ZArith QArith SpecFloat.

Set Warnings "-register-all".

(* ===================================================================== *)
(** * Part I: the model                                                   *)
(* ===================================================================== *)

(** ** The JavaScript fragment *)

Module Js.

(** Strings.  A string is the sequence of its UTF-16 code units, which is
    what [===], [trim] and [length] see. *)
Definition code_unit : Type := N.

Definition js_string : Type := list code_unit.

(** A string literal of the source; the literals of the components are
    ASCII, one code unit per character. *)
Definition lit (s : string) : js_string :=
  List.map N_of_ascii (list_ascii_of_string s).

Coercion lit : string >-> js_string.
Arguments lit : simpl never.

Fixpoint string_eqb (x y : js_string) : bool :=
  match x, y with
  | [], [] => true
  | c :: x', d :: y' => N.eqb c d && string_eqb x' y'
  | _, _ => false
  end.

(** Numbers.  A number is a rational or an infinity: the instants of
    [Date.now()] and the ids the components make are integers, and what
    [JSON.parse] reads is a finite number or, for a literal too large for a
    double, an infinity.  The two zeros are not told apart ([===], [Map]
    keys and [Boolean] do not), and [NaN] is made by none of the code below
    nor by [JSON.parse].  The arithmetic of the progress value is done on
    doubles, in [Double]. *)
Inductive Number : Type :=
| Finite (q : Q)
| Infinity (negative : bool).

Definition number_eqb (x y : Number) : bool :=
  match x, y with
  | Finite a, Finite b => Qeq_bool a b
  | Infinity s, Infinity s' => Bool.eqb s s'
  | _, _ => false
  end.

(** Values.  An array or an object carries the reference the host gave it,
    since [===] and [Map] keys compare those by identity. *)
Inductive JsValue : Type :=
| JsUndefined
| JsNull
| JsBool (b : bool)
| JsNumber (x : Number)
| JsString (s : js_string)
| JsArray (ref : positive) (elems : list JsValue)
| JsObject (ref : positive) (props : gmap string JsValue).

(** An integer as a JavaScript number: what [Date.now()] returns. *)
Definition JsInt (z : Z) : JsValue := JsNumber (Finite (inject_Z z)).

(** [Boolean(v)], the test behind [if], [!], [&&], [||] and [filter(Boolean)]. *)
Definition truthy (v : JsValue) : bool :=
  match v with
  | JsUndefined | JsNull => false
  | JsBool b => b
  | JsNumber (Finite q) => negb (Qeq_bool q 0)
  | JsNumber (Infinity _) => true
  | JsString s => negb (string_eqb s "")
  | JsArray _ _ | JsObject _ _ => true
  end.

(** [a || b]: the left operand when it is truthy, the right one otherwise. *)
Definition js_or (a b : JsValue) : JsValue := if truthy a then a else b.

(** [a === b]. *)
Definition strict_equals (a b : JsValue) : bool :=
  match a, b with
  | JsUndefined, JsUndefined => true
  | JsNull, JsNull => true
  | JsBool x, JsBool y => Bool.eqb x y
  | JsNumber x, JsNumber y => number_eqb x y
  | JsString x, JsString y => string_eqb x y
  | JsArray r _, JsArray r' _ => Pos.eqb r r'
  | JsObject r _, JsObject r' _ => Pos.eqb r r'
  | _, _ => false
  end.

(** The key comparison of [Map]: it differs from [===] on [NaN] only. *)
Definition same_value_zero (a b : JsValue) : bool := strict_equals a b.

(** What a [throw] carries, as far as the components tell errors apart;
    [InvalidChild] is the error of React's renderer for a child it cannot
    render. *)
Inductive JsError : Type :=
| SyntaxError
| TypeError
| HttpError (status : nat)
| NetworkError
| InvalidChild.

(** The outcome of evaluating code that may throw. *)
Inductive completion (A : Type) : Type :=
| Normal (a : A)
| Throw (e : JsError).
Arguments Normal {A} a.
Arguments Throw {A} e.

#[export] Instance completion_ret : MRet completion := fun A a => Normal a.
#[export] Instance completion_bind : MBind completion := fun A B f c =>
  match c with
  | Normal a => f a
  | Throw e => Throw e
  end.

(** [try { body } catch (e) { handler(e) }]. *)
Definition try_catch {A} (body : completion A) (handler : JsError -> A) : A :=
  match body with
  | Normal a => a
  | Throw e => handler e
  end.

(** [v.k] for the property names the components read ([sender], [id],
    [text], [user_id], [player_name], [connected], [messages_sent]): none is
    a property of a primitive's or an array's prototype, so only an object
    may hold one, and reading any property of [null] or [undefined] throws. *)
Definition get (v : JsValue) (k : string) : completion JsValue :=
  match v with
  | JsUndefined | JsNull => Throw TypeError
  | JsObject _ props => Normal (default JsUndefined (props !! k))
  | _ => Normal JsUndefined
  end.

(** The white space and the line terminators [trim] strips: tab, line
    feed, vertical tab, form feed, carriage return, space, no-break space,
    U+1680, U+2000 to U+200A, U+2028, U+2029, U+202F, U+205F, U+3000 and
    U+FEFF.  Each is one code unit. *)
Definition is_white_space (c : code_unit) : bool :=
  existsb (N.eqb c) [9; 10; 11; 12; 13; 32; 160; 5760; 8232; 8233; 8239; 8287; 12288; 65279]%N
  || (N.leb 8192 c && N.leb c 8202).

Fixpoint trimStart (s : js_string) : js_string :=
  match s with
  | [] => []
  | c :: s' => if is_white_space c then trimStart s' else s
  end.

Fixpoint trimEnd (s : js_string) : js_string :=
  match s with
  | [] => []
  | c :: s' =>
      match trimEnd s' with
      | [] => if is_white_space c then [] else [c]
      | r => c :: r
      end
  end.

(** [s.trim()]. *)
Definition trim (s : js_string) : js_string := trimEnd (trimStart s).

Fixpoint all_white_space (s : js_string) : bool :=
  match s with
  | [] => true
  | c :: s' => is_white_space c && all_white_space s'
  end.

End Js.

(** ** Doubles

    The arithmetic the components do on numbers, the progress percentage
    of line 127, is that of IEEE 754 binary64, rounding to nearest, ties to
    even. *)

Module Double.

Definition prec : Z := 53.
Definition emax : Z := 1024.

Definition t : Type := spec_float.

(** An integer as a double: the integer itself up to 2^53 in magnitude,
    which every instant of [Date.now()] and every difference of two of them
    is. *)
Definition of_Z (z : Z) : t := binary_normalize prec emax z 0 false.

Definition zero : t := S754_zero false.

(** [x / y] and [x * y]. *)
Definition div (x y : t) : t := SFdiv prec emax x y.
Definition mul (x y : t) : t := SFmul prec emax x y.

(** [x < y]. *)
Definition ltb (x y : t) : bool := SFltb x y.

(** [Math.min(x, y)]: [NaN] when either is, and [-0] below [+0]. *)
Definition min (x y : t) : t :=
  match SFcompare x y with
  | None => S754_nan
  | Some Lt => x
  | Some Gt => y
  | Some Eq =>
      match y with
      | S754_zero true => y
      | _ => x
      end
  end.

End Double.

(** ** [Map], insertion ordered, keyed by JavaScript values *)

Module JsMap.
Import Js.

Definition t (V : Type) : Type := list (JsValue * V).

Definition empty {V} : t V := [].

Definition has {V} (k : JsValue) (m : t V) : bool :=
  existsb (fun kv => same_value_zero (fst kv) k) m.

(** [m.set(k, v)]: a present key keeps its place, a new one goes last. *)
Definition set {V} (k : JsValue) (v : V) (m : t V) : t V :=
  if has k m
  then List.map (fun kv => if same_value_zero (fst kv) k then (fst kv, v) else kv) m
  else m ++ [(k, v)].

Definition delete {V} (k : JsValue) (m : t V) : t V :=
  List.filter (fun kv => negb (same_value_zero (fst kv) k)) m.

Definition values {V} (m : t V) : list V := List.map snd m.

End JsMap.

(** ** The chat view, [TextChat.js] *)

(** A message of the store: [{ id, sender, text, visible }].  The local
    messages are made without a [visible] property: [None]. *)
Module Message.
Import Js.

Record t : Type := mk {
  id : JsValue;
  sender : JsValue;
  text : JsValue;
  visible : option bool;
}.

(** [m.visible] in a condition. *)
Definition is_visible (m : t) : bool :=
  match visible m with
  | Some b => b
  | None => false
  end.

(** [{ ...msg, visible: false }]. *)
Definition hide (msg : t) : t :=
  {| id := id msg; sender := sender msg; text := text msg; visible := Some false |}.

End Message.

Module TextChat.
Import Js.

Definition MESSAGE_VISIBLE_TIME_MS : Z := 5000.

(** The literal ['teamtext-bot']. *)
Definition BOT : JsValue := JsString "teamtext-bot".

(** An entry of [visibleTimers]: [{ tid, start }]. *)
Record TimerEntry : Type := mkTimer {
  tid : nat;
  start : Z;
}.

(** [WebSocket.readyState]. *)
Inductive ReadyState : Type := CONNECTING | OPEN | CLOSING | CLOSED.

(** The object [send] serializes and hands to [ws.send]. *)
Record Frame : Type := mkFrame {
  frame_id : JsValue;
  frame_sender : JsValue;
  frame_text : JsValue;
}.

Inductive Level : Type := debug | warn.

(** The component with what it holds of the host.
    - [messages], [loadingValue], [text]: the three [useState] cells;
      [messages_identity] counts the arrays [setMessages] stored, which is
      what the dependency list [[messages]] compares;
    - [visibleTimers], [wsRef]: the refs ([wsRef] says that [wsRef.current]
      is the socket rather than [null]);
    - [socket]: the ready state of the socket the effect made, [None] when
      the constructor threw;
    - [timeouts]: the host's pending [setTimeout] callbacks, each with the
      [m.id] its closure holds; [interval]: the pending [setInterval];
      [next_handle]: the next handle either call returns;
    - [sent]: the frames [ws.send] accepted; [console]: the log;
    - [mounted]: React drops the state updates of an unmounted component;
    - [player_name]: the global [window.player_name]. *)
Record State : Type := mkState {
  messages : list Message.t;
  messages_identity : nat;
  loadingValue : Double.t;
  text : js_string;
  visibleTimers : JsMap.t TimerEntry;
  wsRef : bool;
  socket : option ReadyState;
  timeouts : gmap nat JsValue;
  interval : option nat;
  next_handle : nat;
  sent : list Frame;
  console : list (Level * string);
  mounted : bool;
  player_name : JsValue;
}.

Definition set_messages (v : list Message.t) (s : State) : State :=
  mkState v (S (messages_identity s)) (loadingValue s) (text s) (visibleTimers s)
    (wsRef s) (socket s) (timeouts s) (interval s) (next_handle s) (sent s)
    (console s) (mounted s) (player_name s).

Definition set_loadingValue (v : Double.t) (s : State) : State :=
  mkState (messages s) (messages_identity s) v (text s) (visibleTimers s)
    (wsRef s) (socket s) (timeouts s) (interval s) (next_handle s) (sent s)
    (console s) (mounted s) (player_name s).

Definition set_text (v : js_string) (s : State) : State :=
  mkState (messages s) (messages_identity s) (loadingValue s) v (visibleTimers s)
    (wsRef s) (socket s) (timeouts s) (interval s) (next_handle s) (sent s)
    (console s) (mounted s) (player_name s).

Definition set_visibleTimers (v : JsMap.t TimerEntry) (s : State) : State :=
  mkState (messages s) (messages_identity s) (loadingValue s) (text s) v
    (wsRef s) (socket s) (timeouts s) (interval s) (next_handle s) (sent s)
    (console s) (mounted s) (player_name s).

Definition set_wsRef (v : bool) (s : State) : State :=
  mkState (messages s) (messages_identity s) (loadingValue s) (text s) (visibleTimers s)
    v (socket s) (timeouts s) (interval s) (next_handle s) (sent s)
    (console s) (mounted s) (player_name s).

Definition set_socket (v : option ReadyState) (s : State) : State :=
  mkState (messages s) (messages_identity s) (loadingValue s) (text s) (visibleTimers s)
    (wsRef s) v (timeouts s) (interval s) (next_handle s) (sent s)
    (console s) (mounted s) (player_name s).

Definition set_timeouts (v : gmap nat JsValue) (s : State) : State :=
  mkState (messages s) (messages_identity s) (loadingValue s) (text s) (visibleTimers s)
    (wsRef s) (socket s) v (interval s) (next_handle s) (sent s)
    (console s) (mounted s) (player_name s).

Definition set_interval (v : option nat) (s : State) : State :=
  mkState (messages s) (messages_identity s) (loadingValue s) (text s) (visibleTimers s)
    (wsRef s) (socket s) (timeouts s) v (next_handle s) (sent s)
    (console s) (mounted s) (player_name s).

Definition set_next_handle (v : nat) (s : State) : State :=
  mkState (messages s) (messages_identity s) (loadingValue s) (text s) (visibleTimers s)
    (wsRef s) (socket s) (timeouts s) (interval s) v (sent s)
    (console s) (mounted s) (player_name s).

Definition set_sent (v : list Frame) (s : State) : State :=
  mkState (messages s) (messages_identity s) (loadingValue s) (text s) (visibleTimers s)
    (wsRef s) (socket s) (timeouts s) (interval s) (next_handle s) v
    (console s) (mounted s) (player_name s).

Definition set_console (v : list (Level * string)) (s : State) : State :=
  mkState (messages s) (messages_identity s) (loadingValue s) (text s) (visibleTimers s)
    (wsRef s) (socket s) (timeouts s) (interval s) (next_handle s) (sent s)
    v (mounted s) (player_name s).

Definition set_mounted (v : bool) (s : State) : State :=
  mkState (messages s) (messages_identity s) (loadingValue s) (text s) (visibleTimers s)
    (wsRef s) (socket s) (timeouts s) (interval s) (next_handle s) (sent s)
    (console s) v (player_name s).

(** *** The state setters of the hooks

    [setMessages] is always called with an updater that builds a new array,
    so [set_messages] stores it under a new identity; an unmounted
    component keeps no state. *)
Definition setMessages (f : list Message.t -> list Message.t) (s : State) : State :=
  if mounted s then set_messages (f (messages s)) s else s.

Definition setLoadingValue (v : Double.t) (s : State) : State :=
  if mounted s then set_loadingValue v s else s.

Definition setText (v : js_string) (s : State) : State :=
  if mounted s then set_text v s else s.

Definition console_log (l : Level) (what : string) (s : State) : State :=
  set_console (console s ++ [(l, what)]) s.

(** [useState]'s initial values and the empty refs, for a given
    [window.player_name]. *)
Definition first_message : Message.t :=
  {| Message.id := JsInt 1;
     Message.sender := BOT;
     Message.text :=
       JsString "You're waiting for a message from another texter. It should appear shortly...";
     Message.visible := Some true |}.

Definition initial (name : JsValue) : State :=
  {| messages := [first_message];
     messages_identity := 0;
     loadingValue := Double.zero;
     text := "";
     visibleTimers := JsMap.empty;
     wsRef := false;
     socket := None;
     timeouts := ∅;
     interval := None;
     next_handle := 1;
     sent := [];
     console := [];
     mounted := true;
     player_name := name |}.

(** *** The socket effect (lines 26-87) *)

(** [new WebSocket(WS_URL)] either throws or returns a connecting socket. *)
Definition websocket_effect (constructed : bool) (s : State) : State :=
  if constructed
  then set_wsRef true (set_socket (Some CONNECTING) s)
  else console_log warn "WebSocket constructor failed" s.

Definition onopen (s : State) : State :=
  console_log debug "WebSocket connected to" s.

(** The [try] block of [ws.onmessage]; [data] is [JSON.parse(ev.data)]: the
    value read, or the [SyntaxError] thrown. *)
Definition onmessage_try (data : completion JsValue) (now : Z) (s : State)
  : completion State :=
  payload ← data;
  if truthy payload then
    from ← get payload "sender";
    if strict_equals from BOT then
      pid ← get payload "id";
      ptext ← get payload "text";
      let id := js_or pid (JsInt now) in
      let text := js_or ptext (JsString "") in
      mret (setMessages
              (fun m => m ++ [ {| Message.id := id; Message.sender := BOT;
                                  Message.text := text; Message.visible := Some true |} ])
              s)
    else mret s
  else mret s.

(** [ws.onmessage]: the block, and the [catch] that logs. *)
Definition onmessage (data : completion JsValue) (now : Z) (s : State) : State :=
  try_catch (onmessage_try data now s)
    (fun e => console_log warn "Failed to parse WS message" s).

Definition onerror (s : State) : State :=
  console_log warn "WebSocket error" s.

Definition onclose (s : State) : State :=
  set_wsRef false (console_log debug "WebSocket closed" s).

Definition websocket_cleanup (s : State) : State :=
  let s1 :=
    match socket s with
    | Some OPEN => set_socket (Some CLOSING) s
    | _ => s
    end in
  set_wsRef false s1.

(** *** The visibility scheduler (lines 91-102) *)

Definition is_bot (m : Message.t) : bool := strict_equals (Message.sender m) BOT.

(** The callback handed to [setTimeout], for the [m.id] it closed over:
    the update of the store, then the deletion of the entry. *)
Definition hide_callback (mid : JsValue) (s : State) : State :=
  let s1 :=
    setMessages
      (List.map (fun msg => if strict_equals (Message.id msg) mid then Message.hide msg else msg))
      s in
  set_visibleTimers (JsMap.delete mid (visibleTimers s1)) s1.

(** The body of the [forEach] for one message. *)
Definition schedule (now : Z) (s : State) (m : Message.t) : State :=
  if is_bot m && Message.is_visible m && negb (JsMap.has (Message.id m) (visibleTimers s))
  then
    let start := now in
    let tid := next_handle s in
    set_visibleTimers
      (JsMap.set (Message.id m) {| tid := tid; start := start |} (visibleTimers s))
      (set_timeouts (<[tid := Message.id m]> (timeouts s)) (set_next_handle (S tid) s))
  else s.

Definition visibility_scheduler (now : Z) (s : State) : State :=
  foldl (schedule now) s (messages s).

(** *** The cleanup of the timers on unmount (lines 105-111) *)

Definition timers_cleanup (s : State) : State :=
  let cleared :=
    foldl (fun pending e => delete (tid e) pending) (timeouts s)
      (JsMap.values (visibleTimers s)) in
  set_visibleTimers JsMap.empty (set_timeouts cleared s).

(** *** The progress aggregator (lines 114-137) *)

Definition anyLoading (ms : list Message.t) : bool :=
  existsb (fun m => is_bot m && Message.is_visible m) ms.

(** [Math.min(x, ...xs)]. *)
Definition Math_min (x : Z) (xs : list Z) : Z := foldl Z.min x xs.

(** The start instants the tick reads: [filter(Boolean)] drops a start of 0. *)
Definition starts (timers : JsMap.t TimerEntry) : list Z :=
  List.filter (fun st => negb (st =? 0)%Z) (List.map start (JsMap.values timers)).

(** The callback handed to [setInterval].  The instants are integers and
    so is their difference; the quotient and the product are rounded. *)
Definition interval_callback (now : Z) (s : State) : State :=
  match starts (visibleTimers s) with
  | [] => setLoadingValue Double.zero s
  | st :: rest =>
      let minStart := Math_min st rest in
      let elapsed := Double.of_Z (now - minStart) in
      let percent :=
        Double.min (Double.of_Z 100)
          (Double.mul (Double.div elapsed (Double.of_Z MESSAGE_VISIBLE_TIME_MS))
             (Double.of_Z 100)) in
      setLoadingValue percent s
  end.

Definition progress_effect (s : State) : State :=
  if anyLoading (messages s)
  then
    let handle := next_handle s in
    set_interval (Some handle) (set_next_handle (S handle) s)
  else setLoadingValue Double.zero s.

Definition progress_cleanup (s : State) : State := set_interval None s.

(** *** [send] (lines 139-159) *)

(** [wsRef.current && wsRef.current.readyState === WebSocket.OPEN]. *)
Definition connected (s : State) : bool :=
  wsRef s &&
  match socket s with
  | Some OPEN => true
  | _ => false
  end.

(** [ws_send_throws] says whether [wsRef.current.send] throws when called. *)
Definition send (now : Z) (ws_send_throws : bool) (s : State) : State :=
  let trimmed := trim (text s) in
  if negb (truthy (JsString trimmed)) then s
  else
    let id := JsInt now in
    let s1 :=
      setMessages
        (fun m => m ++ [ {| Message.id := id; Message.sender := player_name s;
                            Message.text := JsString trimmed; Message.visible := None |} ])
        s in
    let s2 := setText "" s1 in
    let payload :=
      {| frame_id := id; frame_sender := player_name s; frame_text := JsString trimmed |} in
    if connected s2 then
      if ws_send_throws
      then console_log warn "Failed to send message over WebSocket" s2
      else set_sent (sent s2 ++ [payload]) s2
    else console_log warn "WebSocket not connected - message sent only locally" s2.

(** *** Rendering

    The effects that depend on [[messages]], in the order React runs them
    after a render that stored a new array: the cleanup of the previous
    progress effect, then the scheduler, then the progress effect. *)
Definition effects (now : Z) (s : State) : State :=
  progress_effect (visibility_scheduler now (progress_cleanup s)).

(** After a handler: the effects run when [messages] is a new array. *)
Definition commit (now : Z) (before after : State) : State :=
  if Nat.eqb (messages_identity before) (messages_identity after)
  then after
  else effects now after.

(** The first render and its effects. *)
Definition mount (name : JsValue) (constructed : bool) (now : Z) : State :=
  progress_effect (visibility_scheduler now (websocket_effect constructed (initial name))).

(** Unmounting runs the cleanups of the socket, the timers and the
    progress effects. *)
Definition unmount (s : State) : State :=
  set_mounted false (progress_cleanup (timers_cleanup (websocket_cleanup s))).

(** *** The events of the view *)

Inductive Event : Type :=
| Open
| MessageEvent (data : completion JsValue)
| Error
| Close
| Change (value : js_string)
| Submit (ws_send_throws : bool)
| Timeout (handle : nat)
| Interval
| Unmount.

(** The handler the host calls for an event at the instant [now]; an event
    that cannot occur in [s] (a message on a socket that is not open, a
    timer that is not pending, input on a view that is gone) leaves [s]. *)
Definition handler (now : Z) (ev : Event) (s : State) : State :=
  match ev with
  | Open =>
      match socket s with
      | Some CONNECTING => onopen (set_socket (Some OPEN) s)
      | _ => s
      end
  | MessageEvent data =>
      match socket s with
      | Some OPEN => onmessage data now s
      | _ => s
      end
  | Error =>
      match socket s with
      | Some _ => onerror s
      | None => s
      end
  | Close =>
      match socket s with
      | Some CLOSED | None => s
      | Some _ => onclose (set_socket (Some CLOSED) s)
      end
  | Change value => setText value s
  | Submit ws_send_throws => if mounted s then send now ws_send_throws s else s
  | Timeout handle =>
      match timeouts s !! handle with
      | Some mid => hide_callback mid (set_timeouts (delete handle (timeouts s)) s)
      | None => s
      end
  | Interval =>
      match interval s with
      | Some _ => interval_callback now s
      | None => s
      end
  | Unmount => if mounted s then unmount s else s
  end.

(** One event, handled to its end: the handler, then the render it asks
    for and the effects of that render.  The callbacks run on one thread
    and do not interleave.  Here the render returns and its effects read
    the instant of the event; [ChatRender.react] is the step with a render
    that may throw, for several arrivals at once, and with the instant the
    effects read themselves. *)
Definition step (s : State) (occurrence : Z * Event) : State :=
  commit (fst occurrence) s (handler (fst occurrence) (snd occurrence) s).

Definition run (s : State) (trace : list (Z * Event)) : State := foldl step s trace.

(** The states a view can be in: some mount, then some events. *)
Definition reachable (s : State) : Prop :=
  exists name constructed t0 trace, s = run (mount name constructed t0) trace.

End TextChat.

(** ** The participant poll of the admin page, [AdminPage.js] *)

Module AdminPage.
Import Js.

(** A record of the [participants] state, as the poll normalizes it. *)
Record Participant : Type := mkParticipant {
  user_id : JsValue;
  player_name : JsValue;
  connected : bool;
  messages_sent : JsValue;
}.

(** The [useState] cells [fetchParticipants] writes; [error] holds the
    error whose [String(e)] the page shows. *)
Record State : Type := mkState {
  participants : list Participant;
  loading : bool;
  error : option JsError;
}.

Definition setParticipants (v : list Participant) (s : State) : State :=
  mkState v (loading s) (error s).

Definition setLoading (v : bool) (s : State) : State :=
  mkState (participants s) v (error s).

Definition setError (v : option JsError) (s : State) : State :=
  mkState (participants s) (loading s) v.

(** What [await fetch('/api/users/list')] resolves to: [res.ok],
    [res.status], and what [await res.json()] gives. *)
Record Response : Type := mkResponse {
  ok : bool;
  status : nat;
  json : completion JsValue;
}.

(** The callback of [data.map]; [fresh] is the reference of the array the
    literal [[]] makes when it is evaluated. *)
Definition normalize (fresh : positive) (u : JsValue) : completion Participant :=
  uid ← get u "user_id";
  name ← get u "player_name";
  conn ← get u "connected";
  msgs ← get u "messages_sent";
  mret {| user_id := uid;
          player_name := js_or name uid;
          connected := truthy conn;
          messages_sent := js_or msgs (JsArray fresh []) |}.

(** [elems.map(f)], left to right; the first throw ends it. *)
Fixpoint map_from {A} (f : nat -> JsValue -> completion A) (i : nat) (elems : list JsValue)
  : completion (list A) :=
  match elems with
  | [] => mret []
  | u :: rest =>
      a ← f i u;
      others ← map_from f (S i) rest;
      mret (a :: others)
  end.

(** [data.map(f)]: only an array has a [map] to call. *)
Definition array_map {A} (f : nat -> JsValue -> completion A) (data : JsValue)
  : completion (list A) :=
  match data with
  | JsArray _ elems => map_from f 0 elems
  | _ => Throw TypeError
  end.

(** [fetchParticipants], run to its end on the outcome of the request
    (a rejected [fetch] is a throw); [alloc i] is the reference of the
    array literal evaluated for the record at index [i]. *)
Definition fetchParticipants (alloc : nat -> positive) (outcome : completion Response)
    (s : State) : State :=
  let s1 := setError None (setLoading true s) in
  let s2 :=
    try_catch
      (res ← outcome;
       if negb (ok res) then Throw (HttpError (status res))
       else
         data ← json res;
         normalized ← array_map (fun i u => normalize (alloc i) u) data;
         mret (setParticipants normalized s1))
      (fun e => setError (Some e) s1) in
  setLoading false s2.

End AdminPage.

(** ** What React renders *)

Module React.
Import Js.

(** Whether React renders [v] as a child: a string or a number is text, a
    boolean, [null] and [undefined] are nothing, an array is its elements,
    and an object that is not a React element throws.  [JSON.parse] makes
    no React element. *)
Fixpoint renderable (v : JsValue) : bool :=
  match v with
  | JsObject _ _ => false
  | JsArray _ elems => forallb renderable elems
  | _ => true
  end.

End React.

(** ** What the chat view displays, [TextChat.js] lines 210-240 *)

Module ChatRender.
Import Js TextChat.
Export React.

(** The condition under which the bubble of a message is rendered
    (line 217): a bot message while it is visible, any other message
    always. *)
Definition displayed (m : Message.t) : bool :=
  (Message.is_visible m && is_bot m) || negb (is_bot m).

(** The test that puts a bubble on the right, in the user's colours
    (lines 214, 221, 222): [m.sender === window.player_name]. *)
Definition mine (s : State) (m : Message.t) : bool :=
  strict_equals (Message.sender m) (player_name s).

(** The messages of the store that are on screen, in order. *)
Definition screen (s : State) : list Message.t := List.filter displayed (messages s).




End ChatRender.

(** ** The controls of the admin page, [AdminPage.js] lines 21-214

    The page beside its poll: the settings form, the requests it sends,
    the selection of a participant.  An [async] function is modelled in two
    halves, the part that runs up to its [fetch] and the part that runs when
    the response is there, with the values its closure holds in between;
    events may occur between the two.  The body read by [await res.json()]
    comes with the response: the functions do nothing between their two
    [await]s, so an event that falls there is one that came before both.
    [console] output is left out. *)

Module AdminControls.
Import Js AdminPage React.

(** The requests the page sends. *)
Inductive Request : Type :=
| GetSettings
| GetUsers
| PostSettings (game_title starting_message : JsValue)
| PostStartGame (game_title starting_message : JsValue).

(** What waits for a response: the rest of [loadSettingsAndParticipants]
    after its [fetch]; the rest of [fetchParticipants], called by the
    interval or ([from_load]) by the [finally] of the load; the rest of
    [startGame]; the rest of [updateSettings], with the [title] of the
    render in which it was called. *)
Inductive Continuation : Type :=
| AfterSettings
| AfterUsers (from_load : bool)
| AfterStartGame
| AfterUpdate (title : JsValue).

(** The page: its [useState] cells ([poll] holds [participants], [loading]
    and [error]), the global [window.game_title], the requests sent so far,
    oldest first, the continuations that wait for a response, and whether
    the page is mounted (the [mounted] variable of the effect; React drops
    the state updates of a page that is not). *)
Record Page : Type := mkPage {
  settingsApplied : bool;
  title : JsValue;
  message : JsValue;
  poll : AdminPage.State;
  expandedUserId : JsValue;
  game_title : JsValue;
  requests : list Request;
  pending : list Continuation;
  mounted : bool;
}.

Definition set_settingsApplied (v : bool) (p : Page) : Page :=
  mkPage v (title p) (message p) (poll p) (expandedUserId p) (game_title p)
    (requests p) (pending p) (mounted p).

Definition set_title (v : JsValue) (p : Page) : Page :=
  mkPage (settingsApplied p) v (message p) (poll p) (expandedUserId p) (game_title p)
    (requests p) (pending p) (mounted p).

Definition set_message (v : JsValue) (p : Page) : Page :=
  mkPage (settingsApplied p) (title p) v (poll p) (expandedUserId p) (game_title p)
    (requests p) (pending p) (mounted p).

Definition set_poll (v : AdminPage.State) (p : Page) : Page :=
  mkPage (settingsApplied p) (title p) (message p) v (expandedUserId p) (game_title p)
    (requests p) (pending p) (mounted p).

Definition set_expandedUserId (v : JsValue) (p : Page) : Page :=
  mkPage (settingsApplied p) (title p) (message p) (poll p) v (game_title p)
    (requests p) (pending p) (mounted p).

Definition set_game_title (v : JsValue) (p : Page) : Page :=
  mkPage (settingsApplied p) (title p) (message p) (poll p) (expandedUserId p) v
    (requests p) (pending p) (mounted p).

Definition set_requests (v : list Request) (p : Page) : Page :=
  mkPage (settingsApplied p) (title p) (message p) (poll p) (expandedUserId p) (game_title p)
    v (pending p) (mounted p).

Definition set_pending (v : list Continuation) (p : Page) : Page :=
  mkPage (settingsApplied p) (title p) (message p) (poll p) (expandedUserId p) (game_title p)
    (requests p) v (mounted p).

Definition set_mounted (v : bool) (p : Page) : Page :=
  mkPage (settingsApplied p) (title p) (message p) (poll p) (expandedUserId p) (game_title p)
    (requests p) (pending p) v.

(** *** The state setters of the hooks *)

Definition setSettingsApplied (v : bool) (p : Page) : Page :=
  if mounted p then set_settingsApplied v p else p.

Definition setTitle (v : JsValue) (p : Page) : Page :=
  if mounted p then set_title v p else p.

Definition setMessage (v : JsValue) (p : Page) : Page :=
  if mounted p then set_message v p else p.

Definition setExpandedUserId (f : JsValue -> JsValue) (p : Page) : Page :=
  if mounted p then set_expandedUserId (f (expandedUserId p)) p else p.

(** [setParticipants], [setLoading] and [setError], through the poll's
    state. *)
Definition with_poll (f : AdminPage.State -> AdminPage.State) (p : Page) : Page :=
  if mounted p then set_poll (f (poll p)) p else p.

(** [fetch(...)]: the request goes out and the caller waits. *)
Definition fetch (r : Request) (k : Continuation) (p : Page) : Page :=
  set_pending (pending p ++ [k]) (set_requests (requests p ++ [r]) p).

(** *** [fetchParticipants] (lines 30-50), in its two halves *)

Definition fetchParticipants_begin (s : AdminPage.State) : AdminPage.State :=
  setError None (setLoading true s).

Definition fetchParticipants_end (alloc : nat -> positive) (outcome : completion Response)
    (s : AdminPage.State) : AdminPage.State :=
  let s2 :=
    try_catch
      (res ← outcome;
       if negb (ok res) then Throw (HttpError (status res))
       else
         data ← json res;
         normalized ← array_map (fun i u => normalize (alloc i) u) data;
         mret (setParticipants normalized s))
      (fun e => setError (Some e) s) in
  setLoading false s2.

Definition call_fetchParticipants (from_load : bool) (p : Page) : Page :=
  fetch GetUsers (AfterUsers from_load) (with_poll fetchParticipants_begin p).

(** The rest of [fetchParticipants]; the [finally] of the load then calls
    [setLoading(false)] once more. *)
Definition users_answered (from_load : bool) (alloc : nat -> positive)
    (outcome : completion Response) (p : Page) : Page :=
  let p1 := with_poll (fetchParticipants_end alloc outcome) p in
  if from_load then with_poll (setLoading false) p1 else p1.

(** *** [loadSettingsAndParticipants] (lines 56-75) *)

Definition call_loadSettingsAndParticipants (p : Page) : Page :=
  fetch GetSettings AfterSettings (with_poll (fun s => setError None (setLoading true s)) p).

(** The rest of it.  A body that is [null] throws at its first property
    read, before any setter ran, so the [catch] finds the page as it was. *)
Definition settings_answered (outcome : completion Response) (p : Page) : Page :=
  let p1 :=
    try_catch
      (res ← outcome;
       if ok res then
         settings ← json res;
         if mounted p then
           g ← get settings "game_title";
           let p' := setTitle (js_or g (js_or (game_title p) (JsString "TeamText"))) p in
           m ← get settings "starting_message";
           mret (setMessage (js_or m (JsString "")) p')
         else mret p
       else mret p)
      (fun e => p) in
  if mounted p1 then call_fetchParticipants true p1 else with_poll (setLoading false) p1.

(** *** [startGame] (lines 86-104) *)

Definition call_startGame (p : Page) : Page :=
  fetch (PostStartGame (title p) (message p)) AfterStartGame
    (with_poll (fun s => setError None (setLoading true s)) p).

Definition startGame_answered (outcome : completion Response) (p : Page) : Page :=
  let p1 :=
    try_catch
      (res ← outcome;
       if negb (ok res) then Throw (HttpError (status res)) else mret p)
      (fun e => with_poll (setError (Some e)) p) in
  with_poll (setLoading false) p1.

(** *** [updateSettings] (lines 106-124) *)

Definition call_updateSettings (p : Page) : Page :=
  let p1 := setSettingsApplied true p in
  fetch (PostSettings (title p) (message p)) (AfterUpdate (title p)) p1.

Definition updateSettings_answered (title : JsValue) (outcome : completion Response)
    (p : Page) : Page :=
  try_catch
    (res ← outcome;
     if negb (ok res) then Throw (HttpError (status res))
     else mret (with_poll (setError None) (set_game_title title p)))
    (fun e => with_poll (setError (Some e)) p).

(** *** The handlers of the form and of the chips *)

(** The [Reset] button (line 150). *)
Definition reset (p : Page) : Page :=
  setMessage (JsString "") (setTitle (js_or (game_title p) (JsString "TeamText")) p).

(** The updater of a chip's [onClick] (line 171). *)
Definition toggle (user_id prev : JsValue) : JsValue :=
  if strict_equals prev user_id then JsNull else user_id.

(** *** What the page draws: the chips and the accordion (lines 163-214) *)

(** A chip (lines 166-172): its label and whether it is filled. *)
Record Chip : Type := mkChip {
  label : JsValue;
  filled : bool;
}.

Definition chip (u : Participant) : Chip :=
  {| label := player_name u; filled := connected u |}.

(** The primary text of an item of the list (line 206): the message itself
    when it is a string, [JSON.stringify(m)] otherwise. *)
Inductive Item : Type :=
| Text (s : js_string)
| Stringified (m : JsValue).

Definition item (m : JsValue) : Item :=
  match m with
  | JsString s => Text s
  | _ => Stringified m
  end.

(** The accordion: the child of its heading, [messages.length], and the
    items of its list, none when it says [No messages sent]. *)
Record Accordion : Type := mkAccordion {
  heading : JsValue;
  count : JsValue;
  items : list Item;
}.

(** [user?.k]. *)
Definition optional {A} (user : option A) (k : A -> JsValue) : JsValue :=
  match user with
  | Some u => k u
  | None => JsUndefined
  end.

(** [v.length]: the length of an array or of a string, the [length]
    property of an object, nothing on a number or a boolean. *)
Definition length_of (v : JsValue) : completion JsValue :=
  match v with
  | JsUndefined | JsNull => Throw TypeError
  | JsArray _ elems => Normal (JsInt (Z.of_nat (List.length elems)))
  | JsString s => Normal (JsInt (Z.of_nat (List.length s)))
  | JsObject _ props => Normal (default JsUndefined (props !! "length"))
  | _ => Normal JsUndefined
  end.

(** The function of lines 190-214, or [None] when nothing is selected;
    [fresh] is the reference of the array the literal [[]] makes.  Only an
    array has a [map] to call: what [JSON.parse] read holds no function. *)
Definition accordion (fresh : positive) (p : Page) : completion (option Accordion) :=
  if truthy (expandedUserId p) then
    let user :=
      List.find (fun q => strict_equals (user_id q) (expandedUserId p))
        (participants (poll p)) in
    let messages := js_or (optional user messages_sent) (JsArray fresh []) in
    n ← length_of messages;
    listed ← (if strict_equals n (JsInt 0) then mret []
              else array_map (fun _ m => mret (item m)) messages);
    mret (Some {| heading := js_or (optional user player_name) (expandedUserId p);
                  count := n;
                  items := listed |})
  else mret None.

(** What is drawn of the participants. *)
Record View : Type := mkView {
  chips : list Chip;
  selected : option Accordion;
}.

(** The children React is given: the labels of the chips, the heading
    and the count of the accordion.  The items are strings. *)
Definition children_render (v : View) : bool :=
  forallb (fun c => renderable (label c)) (chips v) &&
  match selected v with
  | Some a => renderable (heading a) && renderable (count a)
  | None => true
  end.

(** The render of the page: the chips, then the accordion, whose function
    may throw, and then React's rendering of the children.  A render that
    throws unmounts the page: there is no error boundary. *)
Definition render (fresh : positive) (p : Page) : completion View :=
  a ← accordion fresh p;
  let v := {| chips := List.map chip (participants (poll p)); selected := a |} in
  if children_render v then mret v else Throw InvalidChild.

(** *** The page as a machine *)

(** [useState]'s initial values, for a given [window.game_title]. *)
Definition initial (g : JsValue) : Page :=
  {| settingsApplied := false;
     title := js_or g (JsString "TeamText");
     message := JsString "";
     poll := {| participants := []; loading := false; error := None |};
     expandedUserId := JsNull;
     game_title := g;
     requests := [];
     pending := [];
     mounted := true |}.

(** The first render and its effect (line 77). *)
Definition mount (g : JsValue) : Page := call_loadSettingsAndParticipants (initial g).

Inductive Event : Type :=
| ChangeTitle (value : js_string)
| ChangeMessage (value : js_string)
| ClickReset
| ClickUpdate
| ClickStart
| ClickChip (index : nat)
| Tick
| Answer (index : nat) (outcome : completion Response) (alloc : nat -> positive)
| Unmount.

(** The continuation [k] runs on the outcome of its request. *)
Definition resume (k : Continuation) (outcome : completion Response)
    (alloc : nat -> positive) (p : Page) : Page :=
  match k with
  | AfterSettings => settings_answered outcome p
  | AfterUsers from_load => users_answered from_load alloc outcome p
  | AfterStartGame => startGame_answered outcome p
  | AfterUpdate title => updateSettings_answered title outcome p
  end.

(** One event.  The form, the buttons, the chips and the interval are
    there while the page is mounted; [Start Game] is disabled until
    [settingsApplied]; an answer is that of a request that waits. *)
Definition step (p : Page) (ev : Event) : Page :=
  match ev with
  | ChangeTitle value => setTitle (JsString value) p
  | ChangeMessage value => setMessage (JsString value) p
  | ClickReset => if mounted p then reset p else p
  | ClickUpdate => if mounted p then call_updateSettings p else p
  | ClickStart => if mounted p && settingsApplied p then call_startGame p else p
  | ClickChip index =>
      match participants (poll p) !! index with
      | Some u => setExpandedUserId (toggle (user_id u)) p
      | None => p
      end
  | Tick => if mounted p then call_fetchParticipants false p else p
  | Answer index outcome alloc =>
      match pending p !! index with
      | Some k => resume k outcome alloc (set_pending (delete index (pending p)) p)
      | None => p
      end
  | Unmount => set_mounted false p
  end.

Definition run (p : Page) (trace : list Event) : Page := foldl step p trace.

Definition reachable (p : Page) : Prop :=
  exists g trace, p = run (mount g) trace.

End AdminControls.

(** ** The vocabulary of the properties *)

Module Store.
Import Js.

(** What may become of a stored message: it keeps its id, sender and text,
    and its [visible] stays as it is or is set to [false]. *)
Definition fades (m m' : Message.t) : Prop :=
  Message.id m' = Message.id m /\
  Message.sender m' = Message.sender m /\
  Message.text m' = Message.text m /\
  (Message.visible m' = Message.visible m \/ Message.visible m' = Some false).

(** What may become of the store: every message stays at its index and
    fades, and messages may be added at the end. *)
Definition extends (old new : list Message.t) : Prop :=
  exists kept added, new = kept ++ added /\ Forall2 fades old kept.

End Store.

Module View.
Import Js TextChat.

(** The effects touch the timers, the interval, the handles and the
    progress value, and nothing else. *)
Definition effects_frame (s s' : State) : Prop :=
  messages s' = messages s /\ messages_identity s' = messages_identity s /\
  text s' = text s /\ wsRef s' = wsRef s /\ socket s' = socket s /\
  sent s' = sent s /\ console s' = console s /\ mounted s' = mounted s /\
  player_name s' = player_name s.

(** No two entries of a [Map] have the same key. *)
Fixpoint keys_unique {V} (m : JsMap.t V) : Prop :=
  match m with
  | [] => True
  | kv :: rest => JsMap.has (fst kv) rest = false /\ keys_unique rest
  end.

(** The book-keeping of the hide timers: the entries of [visibleTimers] and
    the callbacks pending at the host are the same timers. *)
Record timers_ok (s : State) : Prop := {
  unique_keys : keys_unique (visibleTimers s);
  pending_registered :
    forall h k, timeouts s !! h = Some k ->
                exists st, In (k, {| tid := h; start := st |}) (visibleTimers s);
  registered_pending :
    forall k e, In (k, e) (visibleTimers s) -> timeouts s !! tid e = Some k;
  handles_fresh :
    forall h k, timeouts s !! h = Some k -> (h < next_handle s)%nat;
}.

(** What the effects establish after every render, and what teardown
    leaves. *)
Record view_ok (s : State) : Prop := {
  scheduled :
    mounted s = true ->
    forall m, In m (messages s) -> is_bot m && Message.is_visible m = true ->
              JsMap.has (Message.id m) (visibleTimers s) = true;
  sampling : interval s <> None -> mounted s = true /\ anyLoading (messages s) = true;
  sampling_on : mounted s = true -> anyLoading (messages s) = true -> interval s <> None;
  idle : anyLoading (messages s) = false -> loadingValue s = Double.zero;
  torn_down : mounted s = false -> timeouts s = ∅ /\ visibleTimers s = [];
}.

(** A handler that leaves the timers, the interval and the view alone. *)
Definition timers_frame (s s' : State) : Prop :=
  visibleTimers s' = visibleTimers s /\ timeouts s' = timeouts s /\
  next_handle s' = next_handle s /\ interval s' = interval s /\
  mounted s' = mounted s.

End View.

(** ** Further vocabulary of the chat view *)

Module Timers.
Import Js TextChat.

(** Every entry of [visibleTimers] is keyed by the id of a bot message
    that is in the store and visible. *)
Definition keys_are_visible_bots (ms : list Message.t) (timers : JsMap.t TimerEntry) : Prop :=
  forall k e, In (k, e) timers ->
    exists m, In m ms /\ is_bot m = true /\ Message.is_visible m = true /\ Message.id m = k.

(** The frame [f] is the echo of the stored message [m]. *)
Definition echoes (f : Frame) (m : Message.t) : Prop :=
  frame_id f = Message.id m /\ frame_sender f = Message.sender m /\
  frame_text f = Message.text m.

(** What the store holds besides bot messages: the echo of a send by
    the user called [name], with a clock instant as its id and a text that
    is trimmed and not empty. *)
Definition own_echo (name : JsValue) (m : Message.t) : Prop :=
  Message.sender m = name /\
  exists now t, Message.id m = JsInt now /\ Message.text m = JsString t /\
                t <> "" /\ trim t = t.

End Timers.

(** ** Vocabulary of the admin page's properties *)

Module Requests.
Import Js AdminPage React AdminControls.

(** Every start-game request of [l] comes after a settings update. *)
Definition starts_follow_update (l : list Request) : Prop :=
  forall before g m after,
    l = before ++ PostStartGame g m :: after ->
    exists g' m', In (PostSettings g' m') before.

(** The React state of the page: all of it but [window.game_title], the
    requests and what waits for an answer. *)
Definition same_view (p q : Page) : Prop :=
  settingsApplied q = settingsApplied p /\ title q = title p /\ message q = message p /\
  poll q = poll p /\ expandedUserId q = expandedUserId p /\ mounted q = mounted p.

(** [u] is the first record of [ps] whose [user_id] is [===] to [uid]; it
    is at index [j]. *)
Definition first_with_id (ps : list Participant) (uid : JsValue) (j : nat) (u : Participant)
  : Prop :=
  ps !! j = Some u /\ strict_equals (user_id u) uid = true /\
  forall k w, (k < j)%nat -> ps !! k = Some w -> strict_equals (user_id w) uid = false.

(** A record the chips and the accordion can show: its messages are
    there, and it has a name whenever it has an id. *)
Definition displayable (u : Participant) : Prop :=
  truthy (messages_sent u) = true /\
  (truthy (user_id u) = true -> truthy (player_name u) = true).

(** The labels of the chips are children React can render. *)
Definition labels_render (p : Page) : bool :=
  forallb (fun u => renderable (player_name u)) (participants (poll p)).

(** The page drawn with its chips and with [a] for its accordion, when the
    labels can be rendered. *)
Definition drawn_with (p : Page) (a : option Accordion) : completion View :=
  if labels_render p
  then Normal {| chips := List.map chip (participants (poll p)); selected := a |}
  else Throw InvalidChild.

(** What the render of [p] gives when [u] is the record its accordion is
    for.  With an array for [messages_sent], the page is drawn with [u]'s
    name, the length of the array and its items.  With anything else, whose
    [length] is [n]: the render throws a [TypeError] unless [n] is 0, and
    the page is drawn with no item when it is. *)
Definition draws_record (fresh : positive) (p : Page) (u : Participant) : Prop :=
  (forall r elems,
     messages_sent u = JsArray r elems ->
     render fresh p =
     drawn_with p (Some {| heading := player_name u;
                           count := JsInt (Z.of_nat (List.length elems));
                           items := List.map item elems |})) /\
  ((forall r elems, messages_sent u <> JsArray r elems) ->
   forall n, length_of (messages_sent u) = Normal n ->
     (strict_equals n (JsInt 0) = false -> render fresh p = Throw TypeError) /\
     (strict_equals n (JsInt 0) = true ->
      render fresh p =
      drawn_with p (Some {| heading := player_name u; count := n; items := [] |}))).

(** Typing in the form. *)
Definition is_edit (ev : Event) : bool :=
  match ev with
  | ChangeTitle _ | ChangeMessage _ => true
  | _ => false
  end.

End Requests.

(** ** Sample views and events, for the instances of the theorems *)

Module Examples.
Import Js TextChat.

Definition ann : JsValue := JsString "ann".

(** A view mounted at instant 1000 whose socket was made. *)
Definition mounted_view : State := run (mount ann true 1000) [].


(** The user typed [" hi "]. *)
Definition typed_view : State :=
  run (mount ann true 1000) [(1100%Z, Open); (1400%Z, Change " hi ")].

(** The payload [{ id, sender: 'teamtext-bot', text }], and its arrival. *)
Definition bot_payload (id : Z) (text : string) : JsValue :=
  JsObject 1 {[ "id" := JsInt id; "sender" := BOT; "text" := JsString text ]}.

Definition bot_event (id : Z) (text : string) : Event :=
  MessageEvent (Normal (bot_payload id text)).


(** A bot message arrived at 1600 while the first one was still shown. *)
Definition two_timers_view : State :=
  run (mount ann true 1000) [(1100%Z, Open); (1600%Z, bot_event 7 "yo")].

(** The user sent ["hi"] at 1500 and a bot message with the id 1500
    arrived at 1600. *)
Definition collision_view : State :=
  run (mount ann true 1000)
    [(1100%Z, Open); (1400%Z, Change " hi "); (1500%Z, Submit false);
     (1600%Z, bot_event 1500 "yo")].


(** The first message was hidden at 6000 and nothing else arrived. *)
Definition idle_view : State := run (mount ann true 1000) [(6000%Z, Timeout 1%nat)].

(** [n] bot messages with the ids 2, 3, ..., all arriving at 7000. *)
Definition arrivals (n : nat) : list (Z * Event) :=
  List.map (fun i => (7000%Z, bot_event (Z.of_nat i + 2) "yo")) (seq 0 n).

(** A view in which the first message was hidden at 6000 and [n] bot
    messages arrived after that. *)
Definition pending_view (n : nat) : State :=
  run (mount ann true 1000) ((1100%Z, Open) :: (6000%Z, Timeout 1%nat) :: arrivals n).

End Examples.

Module AdminExamples.
Import Js AdminPage.

(** The record [{ user_id: 'u1', player_name: '', connected: true }]. *)
Definition unnamed_record : JsValue :=
  JsObject 2 {[ "user_id" := JsString "u1"; "player_name" := JsString "";
                "connected" := JsBool true ]}.

(** The record [{ user_id: 'u2', player_name: 'bob', connected: false,
    messages_sent: [] }]. *)
Definition bob_record : JsValue :=
  JsObject 3 {[ "user_id" := JsString "u2"; "player_name" := JsString "bob";
                "connected" := JsBool false; "messages_sent" := JsArray 4 [] ]}.

Definition poll_response : Response :=
  {| ok := true; status := 200; json := Normal (JsArray 5 [bob_record; unnamed_record]) |}.

Definition empty_page : State :=
  {| participants := []; loading := false; error := None |}.

End AdminExamples.

(** ** Further sample views, and sample pages *)

Module MoreExamples.
Import Js TextChat Examples.

(** The socket opened at 1100 and closed at 1200. *)
Definition closed_view : State :=
  run (mount ann true 1000) [(1100%Z, Open); (1200%Z, Close)].

(** The message the user sent in [collision_view], and its frame. *)
Definition hi_message : Message.t :=
  {| Message.id := JsInt 1500; Message.sender := ann;
     Message.text := JsString "hi"; Message.visible := None |}.

Definition hi_frame : Frame :=
  {| frame_id := JsInt 1500; frame_sender := ann; frame_text := JsString "hi" |}.



End MoreExamples.

Module PageExamples.
Import Js AdminPage AdminControls AdminExamples.

(** The body [{ game_title: 'Quiz', starting_message: '' }]. *)
Definition settings_body : JsValue :=
  JsObject 6 {[ "game_title" := JsString "Quiz"; "starting_message" := JsString "" ]}.

Definition settings_response : Response :=
  {| ok := true; status := 200; json := Normal settings_body |}.

Definition accepted : Response :=
  {| ok := true; status := 200; json := Normal JsNull |}.

Definition refused : Response :=
  {| ok := false; status := 500; json := Throw SyntaxError |}.

Definition alloc (i : nat) : positive := Pos.of_nat (10 + i).

(** The settings and the first poll arrived. *)
Definition loaded_trace : list Event :=
  [Answer 0 (Normal settings_response) alloc; Answer 0 (Normal poll_response) alloc].

Definition loaded_page : Page := run (mount JsUndefined) loaded_trace.


(** The title was edited and [Update Settings] clicked. *)
Definition updating_trace : list Event :=
  loaded_trace ++ [ChangeTitle "Quiz 2"; ClickUpdate].

Definition updating_page : Page := run (mount JsUndefined) updating_trace.

(** The update was refused and [Start Game] clicked. *)
Definition started_page : Page :=
  run (mount JsUndefined) (updating_trace ++ [Answer 0 (Normal refused) alloc; ClickStart]).

(** The page was left while the update waited. *)
Definition left_page : Page := run (mount JsUndefined) (updating_trace ++ [Unmount]).




End PageExamples.

(* ===================================================================== *)
(** * Part II: properties                                                 *)
(* ===================================================================== *)

(** ** Equality and trimming *)

Section JsFacts.
Import Js.

Lemma lit_empty : lit "" = [].
Proof. reflexivity. Qed.

Lemma string_eqb_eq (x y : js_string) : string_eqb x y = true <-> x = y.
Proof.
  revert y. induction x as [|c x IH]; intros [|d y]; simpl; try (split; [discriminate|discriminate]).
  - tauto.
  - rewrite andb_true_iff, N.eqb_eq, IH. split; [intros [-> ->]; reflexivity|].
    intros [= -> ->]. auto.
Qed.

Lemma string_eqb_refl (x : js_string) : string_eqb x x = true.
Proof. apply string_eqb_eq. reflexivity. Qed.

Lemma string_eqb_neq (x y : js_string) : string_eqb x y = false <-> x <> y.
Proof.
  rewrite <- string_eqb_eq. destruct (string_eqb x y); split; congruence.
Qed.

Lemma string_eqb_sym (x y : js_string) : string_eqb x y = string_eqb y x.
Proof.
  apply eq_true_iff_eq. rewrite !string_eqb_eq. split; congruence.
Qed.

Lemma number_eqb_refl (x : Number) : number_eqb x x = true.
Proof.
  destruct x as [q|[|]]; simpl; [|reflexivity|reflexivity].
  apply Qeq_bool_iff. reflexivity.
Qed.

Lemma number_eqb_sym (x y : Number) : number_eqb x y = number_eqb y x.
Proof.
  destruct x as [a|s], y as [b|s']; simpl; try reflexivity.
  - apply eq_true_iff_eq. rewrite !Qeq_bool_iff. split; intros H; symmetry; exact H.
  - destruct s, s'; reflexivity.
Qed.

Lemma number_eqb_trans (x y z : Number) :
  number_eqb x y = true -> number_eqb y z = true -> number_eqb x z = true.
Proof.
  destruct x as [a|s], y as [b|s']; simpl; try discriminate;
    destruct z as [c|s'']; simpl; try discriminate.
  - rewrite !Qeq_bool_iff. intros H1 H2. rewrite H1. exact H2.
  - destruct s, s', s''; simpl; auto.
Qed.

Lemma strict_equals_refl (a : JsValue) : strict_equals a a = true.
Proof.
  destruct a; simpl; try reflexivity.
  - apply eqb_reflx.
  - apply number_eqb_refl.
  - apply string_eqb_refl.
  - apply Pos.eqb_refl.
  - apply Pos.eqb_refl.
Qed.

Lemma strict_equals_sym (a b : JsValue) : strict_equals a b = strict_equals b a.
Proof.
  destruct a, b; simpl; try reflexivity.
  - destruct b, b0; reflexivity.
  - apply number_eqb_sym.
  - apply string_eqb_sym.
  - apply Pos.eqb_sym.
  - apply Pos.eqb_sym.
Qed.

Lemma strict_equals_trans (a b c : JsValue) :
  strict_equals a b = true -> strict_equals b c = true -> strict_equals a c = true.
Proof.
  destruct a, b; simpl; try discriminate; destruct c; simpl; try discriminate; auto.
  - destruct b, b0, b1; simpl; auto.
  - apply number_eqb_trans.
  - rewrite !string_eqb_eq. congruence.
  - rewrite !Pos.eqb_eq. congruence.
  - rewrite !Pos.eqb_eq. congruence.
Qed.

Lemma truthy_string (s : js_string) : truthy (JsString s) = false <-> s = "".
Proof.
  simpl. destruct (string_eqb s "") eqn:E; simpl.
  - apply string_eqb_eq in E. tauto.
  - apply string_eqb_neq in E. split; [discriminate | tauto].
Qed.

Lemma trimStart_white (s : js_string) : all_white_space s = true -> trimStart s = "".
Proof.
  induction s as [|c s IH]; simpl; [reflexivity|].
  intros [Hc Hs]%andb_prop. rewrite Hc. auto.
Qed.

Lemma trimStart_head (s : js_string) :
  trimStart s = "" \/ exists c r, trimStart s = c :: r /\ is_white_space c = false.
Proof.
  induction s as [|c s IH]; simpl; [left; reflexivity|].
  destruct (is_white_space c) eqn:E; [exact IH|].
  right. exists c, s. split; [reflexivity | exact E].
Qed.

Lemma trimStart_empty (s : js_string) : trimStart s = "" -> all_white_space s = true.
Proof.
  rewrite lit_empty.
  induction s as [|c s IH]; simpl; [reflexivity|].
  destruct (is_white_space c); [auto | discriminate].
Qed.

Lemma trimEnd_empty (s : js_string) : trimEnd s = "" <-> all_white_space s = true.
Proof.
  rewrite lit_empty.
  induction s as [|c s IH]; simpl; [tauto|].
  destruct (trimEnd s) eqn:E.
  - destruct (is_white_space c); simpl.
    + split; [intros _; apply IH; reflexivity | reflexivity].
    + split; discriminate.
  - split; [discriminate|].
    intros [_ Hs]%andb_prop. apply IH in Hs. discriminate.
Qed.

(** [trim] gives the empty string exactly on the strings of white space. *)
Lemma trim_empty_iff (s : js_string) : trim s = "" <-> all_white_space s = true.
Proof.
  unfold trim. split.
  - intros H. apply trimEnd_empty in H.
    destruct (trimStart_head s) as [E | (c & r & E & Hc)].
    + apply trimStart_empty. exact E.
    + rewrite E in H. simpl in H. rewrite Hc in H. discriminate.
  - intros H. rewrite (trimStart_white s H). reflexivity.
Qed.

End JsFacts.

(** ** The [Map] operations *)

Section JsMapFacts.
Import Js.
Context {V : Type}.
Implicit Types (k : JsValue) (m : JsMap.t V).

Lemma has_app k m m' : JsMap.has k (m ++ m') = JsMap.has k m || JsMap.has k m'.
Proof. unfold JsMap.has. apply existsb_app. Qed.

Lemma has_set k v m : JsMap.has k (JsMap.set k v m) = true.
Proof.
  unfold JsMap.set. destruct (JsMap.has k m) eqn:E.
  - revert E. unfold JsMap.has. induction m as [|[k0 v0] m IH]; simpl; [discriminate|].
    destruct (same_value_zero k0 k) eqn:E0; simpl.
    + rewrite E0. reflexivity.
    + rewrite E0. simpl. exact IH.
  - rewrite has_app. simpl. unfold same_value_zero.
    rewrite strict_equals_refl. apply orb_true_r.
Qed.

Lemma has_set_mono k k' v m : JsMap.has k' m = true -> JsMap.has k' (JsMap.set k v m) = true.
Proof.
  intros H. unfold JsMap.set. destruct (JsMap.has k m).
  - revert H. unfold JsMap.has. induction m as [|[k0 v0] m IH]; simpl; [discriminate|].
    intros [H | H]%orb_prop.
    + destruct (same_value_zero k0 k); simpl; rewrite H; reflexivity.
    + rewrite (IH H). apply orb_true_r.
  - rewrite has_app, H. reflexivity.
Qed.

Lemma has_delete k m : JsMap.has k (JsMap.delete k m) = false.
Proof.
  unfold JsMap.has, JsMap.delete.
  induction m as [|[k0 v0] m IH]; simpl; [reflexivity|].
  destruct (same_value_zero k0 k) eqn:E; simpl; [exact IH|].
  rewrite E. exact IH.
Qed.

Lemma has_In k m :
  JsMap.has k m = true <-> exists k0 v, In (k0, v) m /\ strict_equals k0 k = true.
Proof.
  unfold JsMap.has, same_value_zero. rewrite existsb_exists. split.
  - intros [[k0 v] [Hin E]]. exists k0, v. split; assumption.
  - intros (k0 & v & Hin & E). exists (k0, v). split; assumption.
Qed.

Lemma In_delete k k0 (v : V) m :
  In (k0, v) (JsMap.delete k m) <-> In (k0, v) m /\ strict_equals k0 k = false.
Proof.
  unfold JsMap.delete, same_value_zero. rewrite filter_In. simpl.
  rewrite negb_true_iff. reflexivity.
Qed.

End JsMapFacts.

(** ** The handlers of the chat view, one event at a time *)

Section ChatHandlers.
Import Js TextChat View.

Lemma effects_frame_refl s : effects_frame s s.
Proof. repeat split. Qed.

Lemma effects_frame_trans s1 s2 s3 :
  effects_frame s1 s2 -> effects_frame s2 s3 -> effects_frame s1 s3.
Proof.
  unfold effects_frame. intros H1 H2.
  destruct H1 as (?&?&?&?&?&?&?&?&?), H2 as (?&?&?&?&?&?&?&?&?).
  repeat split; congruence.
Qed.

Lemma schedule_frame now s m : effects_frame s (schedule now s m).
Proof.
  unfold schedule. destruct (_ && _); [|apply effects_frame_refl].
  repeat split.
Qed.

Lemma foldl_schedule_frame now l s : effects_frame s (foldl (schedule now) s l).
Proof.
  revert s. induction l as [|m l IH]; intros s; simpl; [apply effects_frame_refl|].
  eapply effects_frame_trans; [apply schedule_frame | apply IH].
Qed.

Lemma visibility_scheduler_frame now s : effects_frame s (visibility_scheduler now s).
Proof. apply foldl_schedule_frame. Qed.

Lemma progress_effect_frame s : effects_frame s (progress_effect s).
Proof.
  unfold progress_effect, setLoadingValue.
  destruct (anyLoading _); [repeat split|].
  destruct (mounted s); repeat split.
Qed.

Lemma effects_effects_frame now s : effects_frame s (effects now s).
Proof.
  unfold effects.
  eapply effects_frame_trans; [|apply progress_effect_frame].
  eapply effects_frame_trans; [|apply visibility_scheduler_frame].
  repeat split.
Qed.

Lemma commit_frame now s s' : effects_frame s' (commit now s s').
Proof.
  unfold commit. destruct (Nat.eqb _ _); [apply effects_frame_refl|].
  apply effects_effects_frame.
Qed.

Lemma commit_same now s s' :
  messages_identity s' = messages_identity s -> commit now s s' = s'.
Proof. intros H. unfold commit. rewrite H, Nat.eqb_refl. reflexivity. Qed.

Lemma commit_messages now s s' : messages (commit now s s') = messages s'.
Proof. apply commit_frame. Qed.

(** *** [send] *)

Lemma send_blank now throws s : trim (text s) = "" -> send now throws s = s.
Proof. intros H. unfold send. rewrite H. reflexivity. Qed.

Lemma send_messages now throws s :
  mounted s = true -> trim (text s) <> "" ->
  messages (send now throws s) =
  messages s ++ [ {| Message.id := JsInt now; Message.sender := player_name s;
                     Message.text := JsString (trim (text s)); Message.visible := None |} ].
Proof.
  intros Hm Ht. unfold send.
  destruct (truthy (JsString (trim (text s)))) eqn:E.
  2:{ apply truthy_string in E. contradiction. }
  destruct s; simpl in *; subst. unfold connected; simpl.
  destruct (_ && _); [destruct throws|]; reflexivity.
Qed.

Lemma send_sent now throws s :
  mounted s = true -> trim (text s) <> "" ->
  sent (send now throws s) =
  if connected s && negb throws
  then sent s ++ [ {| frame_id := JsInt now; frame_sender := player_name s;
                      frame_text := JsString (trim (text s)) |} ]
  else sent s.
Proof.
  intros Hm Ht. unfold send.
  destruct (truthy (JsString (trim (text s)))) eqn:E.
  2:{ apply truthy_string in E. contradiction. }
  destruct s; simpl in *; subst. unfold connected; simpl.
  destruct (_ && _); [destruct throws|]; reflexivity.
Qed.

(** C5.  A local send of a text that is not blank appends exactly one
    message to the store, whatever the state of the socket and whether or
    not [ws.send] throws; without an open socket nothing is transmitted
    (and with one, the frame is transmitted once). *)
Theorem send_appends_whatever_the_transport (s : State) (now : Z) (ws_send_throws : bool) :
  mounted s = true -> trim (text s) <> "" ->
  let s' := step s (now, Submit ws_send_throws) in
  messages s' =
    messages s ++ [ {| Message.id := JsInt now; Message.sender := player_name s;
                       Message.text := JsString (trim (text s)); Message.visible := None |} ] /\
  List.length (messages s') = S (List.length (messages s)) /\
  (connected s = false -> sent s' = sent s) /\
  (connected s = true -> ws_send_throws = false -> List.length (sent s') = S (List.length (sent s))).
Proof.
  intros Hm Ht s'. subst s'. unfold step. simpl. rewrite Hm.
  destruct (commit_frame now s (send now ws_send_throws s)) as (Hmsg & _ & _ & _ & _ & Hsent & _).
  rewrite Hmsg, Hsent, (send_messages _ _ _ Hm Ht), (send_sent _ _ _ Hm Ht).
  split; [reflexivity|]. split; [|split].
  - rewrite length_app. simpl. lia.
  - intros ->. reflexivity.
  - intros -> ->. simpl. rewrite length_app. simpl. lia.
Qed.

(** C10.  A send of a text whose trimmed form is empty, which is the
    empty text or one of white space only, changes nothing at all: not the
    store, not the frames sent, not the composed text.  A send of any other
    text appends a message whose text is the trimmed input.  The texts are
    all the sequences of UTF-16 code units, and the white space is all that
    [trim] strips. *)
Theorem send_blank_is_noop (s : State) (now : Z) (ws_send_throws : bool) :
  (trim (text s) = "" <-> all_white_space (text s) = true) /\
  (trim (text s) = "" -> step s (now, Submit ws_send_throws) = s) /\
  (trim (text s) <> "" -> mounted s = true ->
   exists m, messages (step s (now, Submit ws_send_throws)) = messages s ++ [m] /\
             Message.text m = JsString (trim (text s))).
Proof.
  split; [apply trim_empty_iff|]. split.
  - intros Hw. unfold step. simpl.
    assert (Hs : (if mounted s then send now ws_send_throws s else s) = s).
    { destruct (mounted s); [apply send_blank; exact Hw | reflexivity]. }
    rewrite Hs. apply commit_same. reflexivity.
  - intros Ht Hm. eexists. split.
    + unfold step. simpl. rewrite Hm, commit_messages. apply send_messages; assumption.
    + reflexivity.
Qed.

(** *** [ws.onmessage] *)

Lemma strict_equals_BOT (v : JsValue) : strict_equals v BOT = true <-> v = BOT.
Proof.
  unfold BOT. destruct v; simpl; try (split; discriminate).
  rewrite string_eqb_eq. split; congruence.
Qed.

Lemma get_BOT_object (payload : JsValue) :
  get payload "sender" = Normal BOT ->
  exists r props, payload = JsObject r props /\ props !! "sender" = Some BOT.
Proof.
  destruct payload; simpl; try discriminate.
  intros H. exists ref, props. split; [reflexivity|].
  destruct (props !! "sender"); simpl in H; [congruence | discriminate].
Qed.

(** On a string, [|| ''] changes nothing. *)
Lemma js_or_string (t : js_string) : js_or (JsString t) (JsString "") = JsString t.
Proof.
  unfold js_or. destruct (truthy (JsString t)) eqn:E; [reflexivity|].
  apply truthy_string in E. subst. reflexivity.
Qed.

Lemma onmessage_bot now s payload :
  mounted s = true -> get payload "sender" = Normal BOT ->
  exists pid ptext,
    get payload "id" = Normal pid /\ get payload "text" = Normal ptext /\
    onmessage (Normal payload) now s =
    set_messages
      (messages s ++ [ {| Message.id := js_or pid (JsInt now); Message.sender := BOT;
                          Message.text := js_or ptext (JsString "");
                          Message.visible := Some true |} ]) s.
Proof.
  intros Hm Hs. destruct (get_BOT_object _ Hs) as (r & props & -> & Hp).
  eexists _, _. split; [reflexivity|]. split; [reflexivity|].
  unfold onmessage, onmessage_try. simpl. rewrite Hp. simpl.
  unfold setMessages. rewrite Hm. reflexivity.
Qed.

Lemma onmessage_other now s payload :
  get payload "sender" <> Normal BOT -> onmessage (Normal payload) now s = s.
Proof.
  intros Hs. unfold onmessage, onmessage_try. simpl.
  destruct (truthy payload) eqn:Ht; [|reflexivity].
  destruct (get payload "sender") as [from|e] eqn:Hg; simpl.
  - destruct (strict_equals from BOT) eqn:E; [|reflexivity].
    apply strict_equals_BOT in E. congruence.
  - destruct payload; simpl in *; discriminate.
Qed.

(** C4.  An inbound event whose payload does not parse: the [try] block
    throws, the handler catches it and returns, and the state it leaves
    differs from the one it found by one line of the log at most; the store
    is the same. *)
Theorem malformed_event_is_dropped (s : State) (now : Z) (e : JsError) :
  onmessage_try (Throw e) now s = Throw e /\
  onmessage (Throw e) now s = console_log warn "Failed to parse WS message" s /\
  step s (now, MessageEvent (Throw e)) =
    match socket s with
    | Some OPEN => console_log warn "Failed to parse WS message" s
    | _ => s
    end /\
  messages (step s (now, MessageEvent (Throw e))) = messages s.
Proof.
  assert (E : step s (now, MessageEvent (Throw e)) =
              match socket s with
              | Some OPEN => console_log warn "Failed to parse WS message" s
              | _ => s
              end).
  { unfold step. simpl. rewrite commit_same.
    - destruct (socket s) as [[]|]; reflexivity.
    - destruct (socket s) as [[]|]; reflexivity. }
  split; [reflexivity|]. split; [reflexivity|]. split; [exact E|].
  rewrite E. destruct (socket s) as [[]|]; reflexivity.
Qed.

(** *** The hide timer *)

Lemma lookup_map {A B} (f : A -> B) (l : list A) (i : nat) :
  List.map f l !! i = f <$> l !! i.
Proof.
  revert i. induction l as [|x l IH]; intros [|i]; simpl; try reflexivity. apply IH.
Qed.

Lemma map_id_on {A} (f : A -> A) (l : list A) :
  (forall x, In x l -> f x = x) -> List.map f l = l.
Proof.
  induction l as [|x l IH]; simpl; intros H; [reflexivity|].
  rewrite H by (left; reflexivity). rewrite IH; [reflexivity|].
  intros y Hy. apply H. right. exact Hy.
Qed.

Lemma schedule_has_inv now s m k :
  JsMap.has k (visibleTimers (schedule now s m)) = true ->
  JsMap.has k (visibleTimers s) = true \/
  (is_bot m && Message.is_visible m = true /\ strict_equals (Message.id m) k = true).
Proof.
  unfold schedule.
  destruct (is_bot m && Message.is_visible m) eqn:Hb; simpl; [|auto].
  destruct (JsMap.has (Message.id m) (visibleTimers s)) eqn:Hh; simpl; [auto|].
  unfold JsMap.set. rewrite Hh, has_app. simpl. unfold same_value_zero.
  rewrite orb_false_r. intros [H | H]%orb_prop; auto.
Qed.

Lemma foldl_schedule_has_inv now l s k :
  JsMap.has k (visibleTimers (foldl (schedule now) s l)) = true ->
  JsMap.has k (visibleTimers s) = true \/
  exists m, In m l /\ is_bot m && Message.is_visible m = true /\
            strict_equals (Message.id m) k = true.
Proof.
  revert s. induction l as [|m l IH]; intros s; simpl; [auto|].
  intros H. destruct (IH _ H) as [H1 | (m' & Hin & Hm')].
  - destruct (schedule_has_inv _ _ _ _ H1) as [H2 | H2]; [auto|].
    right. exists m. split; [left; reflexivity | exact H2].
  - right. exists m'. split; [right; exact Hin | exact Hm'].
Qed.

Lemma effects_has_inv now s k :
  JsMap.has k (visibleTimers (effects now s)) = true ->
  JsMap.has k (visibleTimers s) = true \/
  exists m, In m (messages s) /\ is_bot m && Message.is_visible m = true /\
            strict_equals (Message.id m) k = true.
Proof.
  unfold effects. intros H.
  assert (E : forall s0, visibleTimers (progress_effect s0) = visibleTimers s0).
  { intros s0. unfold progress_effect, setLoadingValue.
    destruct (anyLoading _); [reflexivity|]. destruct (mounted s0); reflexivity. }
  rewrite E in H. apply (foldl_schedule_has_inv now _ (progress_cleanup s) k H).
Qed.

(** What the callback's updater makes of one message. *)
Lemma hide_callback_messages mid s :
  mounted s = true ->
  messages (hide_callback mid s) =
  List.map (fun msg => if strict_equals (Message.id msg) mid then Message.hide msg else msg)
    (messages s).
Proof. intros Hm. unfold hide_callback, setMessages. rewrite Hm. reflexivity. Qed.

(** C8.  When the hide timer of a message id fires, the store keeps its
    length and its order; a message with that id keeps its id, sender and
    text and has [visible] set to [false], every other message is the one
    it was; with no message of that id the store is the one it was; and the
    id has no timer entry afterwards. *)
Theorem hide_timer_fire_flips_only_its_id (s : State) (now : Z) (h : nat) (mid : JsValue) :
  mounted s = true -> timeouts s !! h = Some mid ->
  let s' := step s (now, Timeout h) in
  List.length (messages s') = List.length (messages s) /\
  (forall i msg, messages s !! i = Some msg ->
     messages s' !! i =
     Some (if strict_equals (Message.id msg) mid
           then {| Message.id := Message.id msg; Message.sender := Message.sender msg;
                   Message.text := Message.text msg; Message.visible := Some false |}
           else msg)) /\
  ((forall msg, In msg (messages s) -> strict_equals (Message.id msg) mid = false) ->
   messages s' = messages s) /\
  JsMap.has mid (visibleTimers s') = false.
Proof.
  intros Hm Hh s'.
  set (s1 := set_timeouts (delete h (timeouts s)) s).
  assert (Hs' : s' = commit now s (hide_callback mid s1)).
  { subst s'. unfold step. simpl. rewrite Hh. reflexivity. }
  assert (Hmsg : messages s' =
                 List.map (fun msg => if strict_equals (Message.id msg) mid
                                      then Message.hide msg else msg) (messages s)).
  { rewrite Hs', commit_messages. apply (hide_callback_messages mid s1). exact Hm. }
  split; [|split; [|split]].
  - rewrite Hmsg. apply length_map.
  - intros i msg Hi. rewrite Hmsg, lookup_map, Hi. reflexivity.
  - intros Hnone. rewrite Hmsg. apply map_id_on.
    intros msg Hin. rewrite (Hnone msg Hin). reflexivity.
  - destruct (JsMap.has mid (visibleTimers s')) eqn:E; [|reflexivity]. exfalso.
    rewrite Hs' in E. unfold commit in E.
    assert (Hdel : JsMap.has mid (visibleTimers (hide_callback mid s1)) = false).
    { unfold hide_callback. simpl. apply has_delete. }
    destruct (Nat.eqb _ _); [congruence|].
    apply effects_has_inv in E. destruct E as [E | (m & Hin & Hb & Hid)]; [congruence|].
    rewrite (hide_callback_messages mid s1 Hm) in Hin.
    apply in_map_iff in Hin. destruct Hin as (m0 & <- & _).
    destruct (strict_equals (Message.id m0) mid) eqn:E0.
    + unfold Message.is_visible in Hb. simpl in Hb. rewrite andb_false_r in Hb. discriminate.
    + congruence.
Qed.

(** *** The progress tick *)

(** [Math.min] returns one of its arguments, and the least of them. *)
Lemma Math_min_spec x xs :
  In (Math_min x xs) (x :: xs) /\ forall y, In y (x :: xs) -> (Math_min x xs <= y)%Z.
Proof.
  unfold Math_min. revert x. induction xs as [|y xs IH]; intros x; simpl.
  - split; [auto|]. intros z [<- | []]. lia.
  - destruct (IH (Z.min x y)) as [Hin Hle]. split.
    + destruct Hin as [Hin | Hin]; [|right; right; exact Hin].
      destruct (Z.min_spec x y) as [[_ E] | [_ E]].
      * left. rewrite <- Hin. symmetry. exact E.
      * right. left. rewrite <- Hin. symmetry. exact E.
    + intros z [<- | [<- | Hz]].
      * transitivity (Z.min x y); [apply Hle; left; reflexivity | lia].
      * transitivity (Z.min x y); [apply Hle; left; reflexivity | lia].
      * apply Hle. right. exact Hz.
Qed.

(** The instants the tick reads are the non-zero starts of the entries. *)
Lemma In_starts (timers : JsMap.t TimerEntry) (x : Z) :
  In x (starts timers) <-> x <> 0%Z /\ exists k e, In (k, e) timers /\ start e = x.
Proof.
  unfold starts, JsMap.values. rewrite filter_In, in_map_iff. split.
  - intros [(e & <- & He) Hnz]. apply in_map_iff in He. destruct He as ([k e'] & <- & Hin).
    split; [|exists k, e'; auto].
    apply negb_true_iff, Z.eqb_neq in Hnz. exact Hnz.
  - intros [Hnz (k & e & Hin & <-)]. split.
    + exists e. split; [reflexivity|]. apply in_map_iff. exists (k, e). auto.
    + apply negb_true_iff, Z.eqb_neq. exact Hnz.
Qed.

Lemma interval_callback_value now s st rest :
  mounted s = true -> starts (visibleTimers s) = st :: rest ->
  loadingValue (interval_callback now s) =
  Double.min (Double.of_Z 100)
    (Double.mul (Double.div (Double.of_Z (now - Math_min st rest))
                   (Double.of_Z MESSAGE_VISIBLE_TIME_MS))
       (Double.of_Z 100)).
Proof.
  intros Hm E. unfold interval_callback, setLoadingValue. rewrite E, Hm. reflexivity.
Qed.

Lemma interval_callback_none now s :
  mounted s = true -> starts (visibleTimers s) = [] ->
  loadingValue (interval_callback now s) = Double.zero.
Proof.
  intros Hm E. unfold interval_callback, setLoadingValue. rewrite E, Hm. reflexivity.
Qed.

Lemma step_interval now s :
  interval s <> None -> step s (now, Interval) = interval_callback now s.
Proof.
  intros Hi. unfold step. simpl. destruct (interval s); [|congruence].
  apply commit_same. unfold interval_callback, setLoadingValue.
  destruct (starts _); destruct (mounted s); reflexivity.
Qed.

End ChatHandlers.

(** ** The chat view along its runs *)

Section ChatInvariants.
Import Js TextChat View.

(** *** What a handler may do *)

Lemma handler_cases now ev s :
  let s1 := handler now ev s in
  (messages s1 = messages s /\ messages_identity s1 = messages_identity s /\
   timers_frame s s1 /\
   (loadingValue s1 = loadingValue s \/ interval s <> None)) \/
  (mounted s = true /\ messages_identity s1 <> messages_identity s /\
   timers_frame s s1 /\ loadingValue s1 = loadingValue s /\
   exists m, messages s1 = messages s ++ [m]) \/
  (exists h mid, ev = Timeout h /\ timeouts s !! h = Some mid) \/
  (ev = Unmount /\ mounted s = true).
Proof.
  destruct ev; simpl.
  - left. destruct s as [? ? ? ? ? ? [[]|] ? ? ? ? ? ? ?]; simpl; repeat split; auto.
  - destruct (socket s) as [[]|] eqn:Hsock;
      try (left; repeat split; auto; fail).
    unfold onmessage, onmessage_try.
    destruct data as [payload|e]; simpl; [|left; repeat split; auto].
    destruct (truthy payload); [|left; repeat split; auto].
    destruct (get payload "sender") as [from|e]; simpl; [|left; repeat split; auto].
    destruct (strict_equals from BOT); [|left; repeat split; auto].
    destruct (get payload "id") as [pid|e]; simpl; [|left; repeat split; auto].
    destruct (get payload "text") as [ptext|e]; simpl; [|left; repeat split; auto].
    unfold setMessages. destruct (mounted s) eqn:Hm; [|left; repeat split; auto].
    right. left. simpl. repeat split; auto. eexists. reflexivity.
  - left. destruct s as [? ? ? ? ? ? [[]|] ? ? ? ? ? ? ?]; simpl; repeat split; auto.
  - left. destruct s as [? ? ? ? ? ? [[]|] ? ? ? ? ? ? ?]; simpl; repeat split; auto.
  - left. unfold setText. destruct (mounted s); repeat split; auto.
  - destruct (mounted s) eqn:Hm; [|left; repeat split; auto].
    unfold send. destruct (negb _); [left; repeat split; auto|].
    right. left. unfold setText, setMessages. rewrite Hm. simpl. rewrite Hm.
    destruct (connected _); [destruct ws_send_throws|]; simpl;
      (repeat split; auto; eexists; reflexivity).
  - destruct (timeouts s !! handle) as [mid|] eqn:E.
    + right. right. left. eauto.
    + left. repeat split; auto.
  - left. destruct (interval s) eqn:Hi; [|repeat split; auto].
    unfold interval_callback, setLoadingValue.
    destruct (starts _); destruct (mounted s) eqn:Hm; simpl; repeat split; auto;
      right; congruence.
  - destruct (mounted s) eqn:Hm; [|left; repeat split; auto].
    right. right. right. auto.
Qed.

(** *** The book-keeping of the timers *)

Lemma keys_unique_snoc {V} (m : JsMap.t V) k v :
  keys_unique m -> JsMap.has k m = false -> keys_unique (m ++ [(k, v)]).
Proof.
  induction m as [|[k0 v0] m IH]; simpl.
  - intros _ _. split; [reflexivity | exact I].
  - intros [Hk0 Hm] Hk. apply orb_false_elim in Hk. destruct Hk as [Hk0k Hk].
    split; [|apply IH; assumption].
    rewrite has_app, Hk0. simpl. unfold same_value_zero in *.
    rewrite orb_false_r, strict_equals_sym. exact Hk0k.
Qed.

Lemma has_delete_le {V} (m : JsMap.t V) k k' :
  JsMap.has k' m = false -> JsMap.has k' (JsMap.delete k m) = false.
Proof.
  unfold JsMap.has, JsMap.delete. induction m as [|[k0 v0] m IH]; simpl; [reflexivity|].
  intros [H0 H]%orb_false_elim.
  destruct (negb _); simpl; [rewrite H0|]; auto.
Qed.

Lemma keys_unique_delete {V} (m : JsMap.t V) k :
  keys_unique m -> keys_unique (JsMap.delete k m).
Proof.
  induction m as [|[k0 v0] m IH]; simpl; [auto|].
  intros [Hk0 Hm]. destruct (negb _); simpl; [|auto].
  split; [apply has_delete_le; exact Hk0 | auto].
Qed.

(** Under unique keys, entries with equal keys are one entry. *)
Lemma keys_unique_In {V} (m : JsMap.t V) k1 v1 k2 v2 :
  keys_unique m -> In (k1, v1) m -> In (k2, v2) m ->
  strict_equals k1 k2 = true -> (k1, v1) = (k2, v2).
Proof.
  induction m as [|[k0 v0] m IH]; simpl; [tauto|].
  intros [Hk0 Hm] [E1 | H1] [E2 | H2] Heq.
  - congruence.
  - exfalso. inversion E1; subst.
    assert (JsMap.has k1 m = true); [|congruence].
    apply has_In. exists k2, v2. split; [exact H2|].
    rewrite strict_equals_sym. exact Heq.
  - exfalso. inversion E2; subst.
    assert (JsMap.has k2 m = true); [|congruence].
    apply has_In. exists k1, v1. split; [exact H1 | exact Heq].
  - apply IH; assumption.
Qed.

Lemma timers_ok_ext s s' :
  visibleTimers s' = visibleTimers s -> timeouts s' = timeouts s ->
  next_handle s' = next_handle s -> timers_ok s -> timers_ok s'.
Proof.
  intros E1 E2 E3 [H1 H2 H3 H4].
  split; rewrite ?E1, ?E2, ?E3; assumption.
Qed.

Lemma schedule_timers_ok now s m : timers_ok s -> timers_ok (schedule now s m).
Proof.
  intros [Hu Hp Hr Hf]. unfold schedule.
  destruct (is_bot m && Message.is_visible m); simpl; [|split; assumption].
  destruct (JsMap.has (Message.id m) (visibleTimers s)) eqn:Hh; simpl; [split; assumption|].
  unfold JsMap.set. rewrite Hh. split; simpl.
  - apply keys_unique_snoc; assumption.
  - intros h k Hl. destruct (decide (h = next_handle s)) as [->|Hne].
    + rewrite lookup_insert_eq in Hl. inversion Hl; subst.
      exists now. apply in_or_app. right. left. reflexivity.
    + rewrite lookup_insert_ne in Hl by congruence.
      destruct (Hp h k Hl) as [st Hin]. exists st. apply in_or_app. left. exact Hin.
  - intros k e [Hin | [E | []]]%in_app_or.
    + assert (Hl := Hr k e Hin). assert (Hlt := Hf _ _ Hl).
      rewrite lookup_insert_ne by lia. exact Hl.
    + inversion E; subst. simpl. apply lookup_insert_eq.
  - intros h k Hl. destruct (decide (h = next_handle s)) as [->|Hne]; [lia|].
    rewrite lookup_insert_ne in Hl by congruence. specialize (Hf h k Hl). lia.
Qed.

Lemma foldl_schedule_timers_ok now l s :
  timers_ok s -> timers_ok (foldl (schedule now) s l).
Proof.
  revert s. induction l as [|m l IH]; intros s H; simpl; [exact H|].
  apply IH, schedule_timers_ok, H.
Qed.

Lemma progress_effect_timers s :
  visibleTimers (progress_effect s) = visibleTimers s /\
  timeouts (progress_effect s) = timeouts s /\
  (next_handle s <= next_handle (progress_effect s))%nat.
Proof.
  unfold progress_effect, setLoadingValue.
  destruct (anyLoading _); simpl; [auto|]. destruct (mounted s); simpl; auto.
Qed.

Lemma effects_timers_ok now s : timers_ok s -> timers_ok (effects now s).
Proof.
  intros H. unfold effects.
  set (s2 := visibility_scheduler now (progress_cleanup s)).
  assert (H2 : timers_ok s2).
  { apply foldl_schedule_timers_ok. revert H. apply timers_ok_ext; reflexivity. }
  destruct (progress_effect_timers s2) as (E1 & E2 & E3).
  destruct H2 as [Hu Hp Hr Hf]. split; rewrite ?E1, ?E2; try assumption.
  intros h k Hl. specialize (Hf h k Hl). lia.
Qed.

(** *** What the effects establish *)

Lemma schedule_has_mono now s m k :
  JsMap.has k (visibleTimers s) = true ->
  JsMap.has k (visibleTimers (schedule now s m)) = true.
Proof.
  intros H. unfold schedule. destruct (_ && _); simpl; [|exact H].
  apply has_set_mono. exact H.
Qed.

Lemma schedule_has_self now s m :
  is_bot m && Message.is_visible m = true ->
  JsMap.has (Message.id m) (visibleTimers (schedule now s m)) = true.
Proof.
  intros Hb. unfold schedule. rewrite Hb. simpl.
  destruct (JsMap.has (Message.id m) (visibleTimers s)) eqn:Hh; simpl; [exact Hh|].
  apply has_set.
Qed.

Lemma foldl_schedule_has_mono now l s k :
  JsMap.has k (visibleTimers s) = true ->
  JsMap.has k (visibleTimers (foldl (schedule now) s l)) = true.
Proof.
  revert s. induction l as [|m l IH]; intros s H; simpl; [exact H|].
  apply IH, schedule_has_mono, H.
Qed.

(** After the [forEach], every visible bot message has a timer entry. *)
Lemma foldl_schedule_covers now l s m :
  In m l -> is_bot m && Message.is_visible m = true ->
  JsMap.has (Message.id m) (visibleTimers (foldl (schedule now) s l)) = true.
Proof.
  revert s. induction l as [|m0 l IH]; intros s; simpl; [tauto|].
  intros [-> | Hin] Hb.
  - apply foldl_schedule_has_mono, schedule_has_self, Hb.
  - apply IH; assumption.
Qed.

Lemma effects_view_ok now s : mounted s = true -> view_ok (effects now s).
Proof.
  intros Hm.
  destruct (effects_effects_frame now s) as (Hmsg & _ & _ & _ & _ & _ & _ & Hmnt & _).
  unfold effects in *.
  set (s2 := visibility_scheduler now (progress_cleanup s)) in *.
  destruct (visibility_scheduler_frame now (progress_cleanup s))
    as (Hmsg2 & _ & _ & _ & _ & _ & _ & Hmnt2 & _).
  fold s2 in Hmsg2, Hmnt2. simpl in Hmsg2, Hmnt2.
  assert (Hi2 : interval s2 = None).
  { subst s2. unfold visibility_scheduler. generalize (messages (progress_cleanup s)).
    assert (G : interval (progress_cleanup s) = None) by reflexivity. revert G.
    generalize (progress_cleanup s). intros s0 G l. revert s0 G.
    induction l as [|m l IH]; intros s0 G; simpl; [exact G|].
    apply IH. unfold schedule. destruct (_ && _); simpl; exact G. }
  destruct (progress_effect_timers s2) as (E1 & _ & _).
  split.
  - intros _ m Hin Hb. rewrite E1. rewrite Hmsg in Hin.
    subst s2. unfold visibility_scheduler. apply foldl_schedule_covers; assumption.
  - intros Hi. split; [congruence|]. rewrite Hmsg.
    revert Hi. unfold progress_effect, setLoadingValue. rewrite Hmsg2.
    destruct (anyLoading (messages s)); [reflexivity|].
    destruct (mounted s2); simpl; congruence.
  - intros _. rewrite Hmsg. unfold progress_effect. rewrite Hmsg2. intros ->.
    simpl. discriminate.
  - rewrite Hmsg. unfold progress_effect, setLoadingValue. rewrite Hmsg2, Hmnt2, Hm.
    intros ->. reflexivity.
  - rewrite Hmnt, Hm. discriminate.
Qed.

(** *** The invariant *)

Lemma hide_callback_timers_ok h mid s :
  timers_ok s -> timeouts s !! h = Some mid ->
  timers_ok (hide_callback mid (set_timeouts (delete h (timeouts s)) s)).
Proof.
  intros [Hu Hp Hr Hf] Hh.
  assert (E : forall s0, visibleTimers (setMessages
                (List.map (fun msg => if strict_equals (Message.id msg) mid
                                      then Message.hide msg else msg)) s0) = visibleTimers s0 /\
              timeouts (setMessages
                (List.map (fun msg => if strict_equals (Message.id msg) mid
                                      then Message.hide msg else msg)) s0) = timeouts s0 /\
              next_handle (setMessages
                (List.map (fun msg => if strict_equals (Message.id msg) mid
                                      then Message.hide msg else msg)) s0) = next_handle s0).
  { intros s0. unfold setMessages. destruct (mounted s0); auto. }
  unfold hide_callback.
  destruct (E (set_timeouts (delete h (timeouts s)) s)) as (E1 & E2 & E3).
  destruct (Hp h mid Hh) as [st0 Hin0].
  split; simpl; rewrite ?E1, ?E2, ?E3; simpl.
  - apply keys_unique_delete, Hu.
  - intros h' k Hl. apply lookup_delete_Some in Hl. destruct Hl as [Hne Hl].
    destruct (Hp h' k Hl) as [st Hin]. exists st. apply In_delete. split; [exact Hin|].
    destruct (strict_equals k mid) eqn:Ek; [|reflexivity]. exfalso.
    assert (X := keys_unique_In _ _ _ _ _ Hu Hin Hin0 Ek). inversion X. congruence.
  - intros k e Hin. apply In_delete in Hin. destruct Hin as [Hin Hk].
    assert (Hl := Hr k e Hin). rewrite lookup_delete_ne; [exact Hl|].
    intros Heq. rewrite Heq, Hl in Hh. inversion Hh; subst.
    rewrite strict_equals_refl in Hk. discriminate.
  - intros h' k Hl. apply lookup_delete_Some in Hl. destruct Hl as [_ Hl].
    apply (Hf h' k Hl).
Qed.

Lemma foldl_delete_lookup (l : list TimerEntry) (pending : gmap nat JsValue) (h : nat) :
  foldl (fun p e => delete (tid e) p) pending l !! h =
  if existsb (fun e => Nat.eqb (tid e) h) l then None else pending !! h.
Proof.
  revert pending. induction l as [|e l IH]; intros pending; simpl; [reflexivity|].
  rewrite IH. destruct (existsb _ l); [rewrite orb_true_r; reflexivity|].
  rewrite orb_false_r. destruct (Nat.eqb (tid e) h) eqn:E.
  - apply Nat.eqb_eq in E. subst. apply lookup_delete_eq.
  - apply Nat.eqb_neq in E. apply lookup_delete_ne. exact E.
Qed.

(** The cleanup cancels every pending hide timer. *)
Lemma timers_cleanup_cancels_all s :
  timers_ok s ->
  timeouts (timers_cleanup s) = ∅ /\ visibleTimers (timers_cleanup s) = [].
Proof.
  intros [_ Hp _ _]. unfold timers_cleanup. simpl. split; [|reflexivity].
  apply map_empty. intros h. rewrite foldl_delete_lookup.
  destruct (existsb _ _) eqn:E; [reflexivity|].
  destruct (timeouts s !! h) as [k|] eqn:Hl; [|reflexivity]. exfalso.
  destruct (Hp h k Hl) as [st Hin].
  assert (X : existsb (fun e => Nat.eqb (tid e) h) (JsMap.values (visibleTimers s)) = true).
  { apply existsb_exists. exists {| tid := h; start := st |}. split.
    - unfold JsMap.values. apply in_map_iff. exists (k, {| tid := h; start := st |}). auto.
    - apply Nat.eqb_refl. }
  congruence.
Qed.

Lemma unmount_fields s :
  messages (unmount s) = messages s /\
  messages_identity (unmount s) = messages_identity s /\
  loadingValue (unmount s) = loadingValue s /\
  interval (unmount s) = None /\ mounted (unmount s) = false /\
  timeouts (unmount s) = timeouts (timers_cleanup s) /\
  visibleTimers (unmount s) = [] /\ next_handle (unmount s) = next_handle s.
Proof.
  unfold unmount, websocket_cleanup.
  destruct (socket s) as [[]|]; simpl; repeat split; reflexivity.
Qed.

Lemma empty_timers_ok s : timeouts s = ∅ -> visibleTimers s = [] -> timers_ok s.
Proof.
  intros E1 E2. split; rewrite ?E1, ?E2; simpl; auto.
  - intros h k Hl. rewrite lookup_empty in Hl. discriminate.
  - tauto.
  - intros h k Hl. rewrite lookup_empty in Hl. discriminate.
Qed.

Lemma unmount_ok s : timers_ok s -> view_ok s -> timers_ok (unmount s) /\ view_ok (unmount s).
Proof.
  intros Ht Hv.
  destruct (unmount_fields s) as (Hmsg & _ & Hlv & Hi & Hm & Hto & Hvt & _).
  destruct (timers_cleanup_cancels_all s Ht) as [Hc _].
  assert (Hto' : timeouts (unmount s) = ∅) by (rewrite Hto; exact Hc).
  split; [apply empty_timers_ok; assumption|].
  split.
  - rewrite Hm. discriminate.
  - rewrite Hi. congruence.
  - rewrite Hm. discriminate.
  - rewrite Hmsg, Hlv. apply (idle s Hv).
  - intros _. split; assumption.
Qed.

Lemma step_ok s o : timers_ok s -> view_ok s -> timers_ok (step s o) /\ view_ok (step s o).
Proof.
  intros Ht Hv. destruct o as [now ev]. unfold step. simpl.
  destruct (handler_cases now ev s)
    as [(Hmsg & Hid & (F1 & F2 & F3 & F4 & F5) & Hlv)
       | [(Hm & Hid & (F1 & F2 & F3 & F4 & F5) & Hlv & m & Hmsg)
         | [(h & mid & -> & Hh) | [-> Hm]]]].
  - rewrite (commit_same _ _ _ Hid). split.
    + revert Ht. apply timers_ok_ext; assumption.
    + destruct Hv as [V1 V2 V3 V4 V5]. split; rewrite ?Hmsg, ?F1, ?F2, ?F4, ?F5; try assumption.
      intros Hnone. destruct Hlv as [-> | Hi]; [auto|].
      destruct (V2 Hi) as [_ Hany]. congruence.
  - unfold commit. destruct (Nat.eqb_spec (messages_identity s) (messages_identity (handler now ev s)));
      [congruence|].
    split.
    + apply effects_timers_ok. revert Ht. apply timers_ok_ext; assumption.
    + apply effects_view_ok. congruence.
  - simpl. rewrite Hh.
    destruct (mounted s) eqn:Hm.
    2:{ destruct (torn_down s Hv Hm) as [E _]. rewrite E, lookup_empty in Hh. discriminate. }
    assert (Hok := hide_callback_timers_ok h mid s Ht Hh).
    set (s1 := hide_callback mid (set_timeouts (delete h (timeouts s)) s)) in *.
    assert (Hid : messages_identity s1 = S (messages_identity s)).
    { subst s1. unfold hide_callback, setMessages. simpl. rewrite Hm. reflexivity. }
    assert (Hm1 : mounted s1 = true).
    { subst s1. unfold hide_callback, setMessages. simpl. rewrite Hm. exact Hm. }
    unfold commit. rewrite Hid.
    destruct (Nat.eqb_spec (messages_identity s) (S (messages_identity s))); [lia|].
    split; [apply effects_timers_ok; exact Hok | apply effects_view_ok; exact Hm1].
  - simpl. rewrite Hm. rewrite commit_same by apply unmount_fields.
    apply unmount_ok; assumption.
Qed.

Lemma mount_ok name constructed t0 :
  timers_ok (mount name constructed t0) /\ view_ok (mount name constructed t0).
Proof.
  unfold mount.
  set (s0 := websocket_effect constructed (initial name)).
  assert (Hm : mounted s0 = true) by (subst s0; destruct constructed; reflexivity).
  assert (Ht : timers_ok s0).
  { apply empty_timers_ok; subst s0; destruct constructed; reflexivity. }
  assert (Hi : interval s0 = None) by (subst s0; destruct constructed; reflexivity).
  assert (E : effects t0 s0 = progress_effect (visibility_scheduler t0 s0)).
  { unfold effects. f_equal. f_equal. destruct s0; simpl in *; subst; reflexivity. }
  rewrite <- E. split; [apply effects_timers_ok, Ht | apply effects_view_ok, Hm].
Qed.

Lemma run_ok s trace :
  timers_ok s -> view_ok s -> timers_ok (run s trace) /\ view_ok (run s trace).
Proof.
  revert s. induction trace as [|o trace IH]; intros s Ht Hv; simpl; [auto|].
  destruct (step_ok s o Ht Hv) as [Ht' Hv']. apply IH; assumption.
Qed.

(** Every reachable state keeps the book-keeping of its timers and what
    the effects established. *)
Lemma reachable_ok s : reachable s -> timers_ok s /\ view_ok s.
Proof.
  intros (name & constructed & t0 & trace & ->).
  destruct (mount_ok name constructed t0) as [Ht Hv]. apply run_ok; assumption.
Qed.

(** *** The store along a run *)

Lemma fades_refl m : Store.fades m m.
Proof. repeat split; auto. Qed.

Lemma fades_trans m1 m2 m3 : Store.fades m1 m2 -> Store.fades m2 m3 -> Store.fades m1 m3.
Proof.
  intros (A1 & A2 & A3 & A4) (B1 & B2 & B3 & B4).
  repeat split; try congruence.
  destruct B4 as [B4 | B4]; [rewrite B4; exact A4 | right; exact B4].
Qed.

Lemma Forall2_fades_refl l : Forall2 Store.fades l l.
Proof. induction l; constructor; [apply fades_refl | assumption]. Qed.

Lemma extends_refl l : Store.extends l l.
Proof. exists l, []. split; [symmetry; apply app_nil_r | apply Forall2_fades_refl]. Qed.

Lemma extends_app l added : Store.extends l (l ++ added).
Proof. exists l, added. split; [reflexivity | apply Forall2_fades_refl]. Qed.

Lemma extends_trans l1 l2 l3 :
  Store.extends l1 l2 -> Store.extends l2 l3 -> Store.extends l1 l3.
Proof.
  intros (k1 & a1 & -> & F1) (k2 & a2 & -> & F2).
  apply Forall2_app_inv_l in F2. destruct F2 as (k21 & k22 & F21 & F22 & ->).
  exists k21, (k22 ++ a2). split; [symmetry; apply app_assoc|].
  revert F21. generalize k21. clear -F1.
  induction F1 as [|x y l k Hxy F IH]; intros k' F'; inversion F'; subst; constructor.
  - eapply fades_trans; eassumption.
  - apply IH. assumption.
Qed.

Lemma extends_lookup old new i m :
  Store.extends old new -> old !! i = Some m ->
  exists m', new !! i = Some m' /\ Store.fades m m'.
Proof.
  intros (kept & added & -> & F) Hi.
  destruct (Forall2_lookup_l _ _ _ _ _ F Hi) as (m' & Hk & Hf).
  exists m'. split; [|exact Hf]. apply lookup_app_l_Some. exact Hk.
Qed.

Lemma extends_hide mid l :
  Store.extends l
    (List.map (fun msg => if strict_equals (Message.id msg) mid then Message.hide msg else msg) l).
Proof.
  eexists _, []. split; [symmetry; apply app_nil_r|].
  induction l as [|m l IH]; simpl; constructor; [|exact IH].
  destruct (strict_equals _ _); [|apply fades_refl].
  repeat split; simpl; auto.
Qed.

(** The store after the hide timer [h] fired. *)
Lemma step_timeout_messages now h mid s :
  mounted s = true -> timeouts s !! h = Some mid ->
  messages (step s (now, Timeout h)) =
  List.map (fun msg => if strict_equals (Message.id msg) mid then Message.hide msg else msg)
    (messages s).
Proof.
  intros Hm Hh. unfold step. simpl. rewrite Hh, commit_messages.
  apply (hide_callback_messages mid (set_timeouts (delete h (timeouts s)) s)). exact Hm.
Qed.

Lemma step_extends s o : Store.extends (messages s) (messages (step s o)).
Proof.
  destruct o as [now ev]. unfold step. simpl. rewrite commit_messages.
  destruct (handler_cases now ev s)
    as [(Hmsg & _) | [(_ & _ & _ & _ & m & Hmsg) | [(h & mid & -> & Hh) | [-> Hm]]]].
  - rewrite Hmsg. apply extends_refl.
  - rewrite Hmsg. apply extends_app.
  - simpl. rewrite Hh. unfold hide_callback, setMessages. simpl.
    destruct (mounted s); simpl; [apply extends_hide | apply extends_refl].
  - simpl. rewrite Hm. destruct (unmount_fields s) as (-> & _). apply extends_refl.
Qed.

Lemma run_extends s trace : Store.extends (messages s) (messages (run s trace)).
Proof.
  revert s. induction trace as [|o trace IH]; intros s; simpl; [apply extends_refl|].
  eapply extends_trans; [apply step_extends | apply IH].
Qed.

(** In a mounted view, a visible bot message has a pending hide timer,
    keyed by its id. *)
Lemma visible_bot_has_timer s m :
  reachable s -> mounted s = true -> In m (messages s) ->
  is_bot m = true -> Message.visible m = Some true ->
  exists h mid, timeouts s !! h = Some mid /\ strict_equals (Message.id m) mid = true.
Proof.
  intros Hr Hm Hin Hb Hv. destruct (reachable_ok s Hr) as [Ht Hview].
  assert (Hhas : JsMap.has (Message.id m) (visibleTimers s) = true).
  { apply (scheduled s Hview Hm m Hin). unfold Message.is_visible. rewrite Hb, Hv. reflexivity. }
  apply has_In in Hhas. destruct Hhas as (k0 & e & Hke & Heq).
  exists (tid e), k0. split; [apply (registered_pending s Ht), Hke|].
  rewrite strict_equals_sym. exact Heq.
Qed.

(** C1 (as amended).  Along every run of the view, the store only grows
    at its end, and a stored message, whoever sent it, keeps its index, id,
    sender and text; its [visible] changes by being set to [false] and in
    no other way, so it changes once at most and a message that is hidden
    stays hidden.  While the view is mounted, a visible bot message has a
    pending hide timer, and that timer's firing hides it. *)
Theorem store_grows_and_messages_only_fade (s : State) (trace : list (Z * Event)) :
  Store.extends (messages s) (messages (run s trace)) /\
  (List.length (messages s) <= List.length (messages (run s trace)))%nat /\
  (forall i m, messages s !! i = Some m ->
     exists m', messages (run s trace) !! i = Some m' /\
       Message.id m' = Message.id m /\ Message.sender m' = Message.sender m /\
       Message.text m' = Message.text m /\
       (Message.visible m' = Message.visible m \/ Message.visible m' = Some false) /\
       (Message.visible m = Some false -> Message.visible m' = Some false)) /\
  (reachable s -> mounted s = true ->
   forall i m, messages s !! i = Some m -> is_bot m = true ->
     Message.visible m = Some true ->
     exists h mid, timeouts s !! h = Some mid /\
       forall now, exists m', messages (step s (now, Timeout h)) !! i = Some m' /\
                              Message.visible m' = Some false).
Proof.
  split; [apply run_extends|]. split; [|split].
  - destruct (run_extends s trace) as (kept & added & -> & F).
    apply Forall2_length in F. rewrite length_app. lia.
  - intros i m Hi.
    destruct (extends_lookup _ _ i m (run_extends s trace) Hi) as (m' & Hi' & Hf).
    exists m'. split; [exact Hi'|].
    destruct Hf as (F1 & F2 & F3 & F4). repeat split; auto.
    intros E. destruct F4; congruence.
  - intros Hr Hm i m Hi Hb Hv.
    assert (Hin : In m (messages s)).
    { apply list_elem_of_In, list_elem_of_lookup. eauto. }
    destruct (visible_bot_has_timer s m Hr Hm Hin Hb Hv) as (h & mid & Hh & Heq).
    exists h, mid. split; [exact Hh|]. intros now.
    rewrite (step_timeout_messages now h mid s Hm Hh), lookup_map, Hi. simpl.
    rewrite Heq. eexists. split; reflexivity.
Qed.

(** *** Any number of timers may be pending *)

Lemma schedule_noop now s m :
  (is_bot m && Message.is_visible m = true ->
   JsMap.has (Message.id m) (visibleTimers s) = true) ->
  schedule now s m = s.
Proof.
  intros H. unfold schedule.
  destruct (is_bot m && Message.is_visible m); simpl; [|reflexivity].
  rewrite H by reflexivity. reflexivity.
Qed.

Lemma foldl_schedule_noop now l s :
  (forall m, In m l -> is_bot m && Message.is_visible m = true ->
             JsMap.has (Message.id m) (visibleTimers s) = true) ->
  foldl (schedule now) s l = s.
Proof.
  induction l as [|m l IH]; intros H; simpl; [reflexivity|].
  rewrite schedule_noop by (apply H; left; reflexivity).
  apply IH. intros m' Hin. apply H. right. exact Hin.
Qed.

Lemma truthy_JsInt (z : Z) : z <> 0%Z -> truthy (JsInt z) = true.
Proof.
  intros Hz. unfold JsInt. simpl. apply negb_true_iff.
  destruct (Qeq_bool (inject_Z z) 0) eqn:E; [|reflexivity].
  apply Qeq_bool_iff in E. change 0%Q with (inject_Z 0) in E.
  apply (proj1 (inject_Z_injective z 0)) in E. contradiction.
Qed.

Lemma strict_equals_JsInt (a b : Z) : a <> b -> strict_equals (JsInt a) (JsInt b) = false.
Proof.
  intros Hab. unfold JsInt. simpl.
  destruct (Qeq_bool (inject_Z a) (inject_Z b)) eqn:E; [|reflexivity].
  apply Qeq_bool_iff in E. apply (proj1 (inject_Z_injective a b)) in E. contradiction.
Qed.

Lemma bot_payload_props id body :
  get (Examples.bot_payload id body) "sender" = Normal BOT /\
  get (Examples.bot_payload id body) "id" = Normal (JsInt id) /\
  get (Examples.bot_payload id body) "text" = Normal (JsString body).
Proof.
  unfold Examples.bot_payload, get. split; [|split].
  - rewrite lookup_insert_ne by discriminate. rewrite lookup_insert_eq. reflexivity.
  - rewrite lookup_insert_eq. reflexivity.
  - rewrite !lookup_insert_ne by discriminate. rewrite lookup_singleton_eq. reflexivity.
Qed.

(** What the arrival of a bot message with a fresh id does to the
    timers: one more is pending. *)
Lemma fresh_bot_arrival now id body s :
  mounted s = true -> socket s = Some OPEN -> timers_ok s -> view_ok s ->
  id <> 0%Z ->
  (forall k e, In (k, e) (visibleTimers s) -> exists j, k = JsInt j /\ j <> id) ->
  let s' := step s (now, Examples.bot_event id body) in
  mounted s' = true /\ socket s' = Some OPEN /\
  size (timeouts s') = S (size (timeouts s)) /\
  (forall k e, In (k, e) (visibleTimers s') ->
     In (k, e) (visibleTimers s) \/ k = JsInt id).
Proof.
  intros Hm Ho Ht Hv Hid Hkeys s'.
  set (m0 := {| Message.id := JsInt id; Message.sender := BOT;
                Message.text := JsString body; Message.visible := Some true |}).
  set (s1 := set_messages (messages s ++ [m0]) s).
  assert (Hh : handler now (Examples.bot_event id body) s = s1).
  { unfold Examples.bot_event. simpl. rewrite Ho.
    destruct (bot_payload_props id body) as (P1 & P2 & P3).
    destruct (onmessage_bot now s _ Hm P1) as (pid & ptext & Q2 & Q3 & ->).
    rewrite P2 in Q2. rewrite P3 in Q3. inversion Q2; subst pid. inversion Q3; subst ptext.
    rewrite js_or_string. unfold js_or. rewrite (truthy_JsInt id Hid). reflexivity. }
  assert (Hs' : s' = effects now s1).
  { subst s'. unfold step. simpl fst. simpl snd. rewrite Hh. unfold commit.
    destruct (Nat.eqb_spec (messages_identity s) (messages_identity s1)) as [E|_];
      [|reflexivity].
    subst s1. simpl in E. lia. }
  set (s2 := progress_cleanup s1).
  assert (Hold : foldl (schedule now) s2 (messages s) = s2).
  { apply foldl_schedule_noop. intros m Hin Hb. apply (scheduled s Hv Hm m Hin Hb). }
  assert (Hnew : JsMap.has (JsInt id) (visibleTimers s) = false).
  { destruct (JsMap.has (JsInt id) (visibleTimers s)) eqn:E; [|reflexivity].
    apply has_In in E. destruct E as (k0 & e & Hin & Heq).
    destruct (Hkeys k0 e Hin) as (j & -> & Hj).
    rewrite (strict_equals_JsInt j id Hj) in Heq. discriminate. }
  assert (Hsched : visibility_scheduler now s2 = schedule now s2 m0).
  { unfold visibility_scheduler. change (messages s2) with (messages s ++ [m0]).
    rewrite foldl_app, Hold. reflexivity. }
  assert (Hfresh : timeouts s !! next_handle s = None).
  { destruct (timeouts s !! next_handle s) as [k|] eqn:E; [|reflexivity].
    assert (X := handles_fresh s Ht _ _ E). lia. }
  destruct (progress_effect_timers (visibility_scheduler now s2)) as (E1 & E2 & _).
  destruct (effects_effects_frame now s1) as (_ & _ & _ & _ & Hsock & _ & _ & Hmnt & _).
  rewrite Hs'. split; [rewrite Hmnt; exact Hm|]. split; [rewrite Hsock; exact Ho|].
  unfold effects. fold s2. rewrite E1, E2, Hsched.
  unfold schedule. change (visibleTimers s2) with (visibleTimers s).
  change (is_bot m0 && Message.is_visible m0) with true.
  change (Message.id m0) with (JsInt id). rewrite Hnew. simpl. split.
  - apply map_size_insert_None. exact Hfresh.
  - unfold JsMap.set. rewrite Hnew. intros k e [Hin | [E | []]]%in_app_or; [auto|].
    inversion E. auto.
Qed.

Lemma arrivals_S n :
  Examples.arrivals (S n) =
  Examples.arrivals n ++ [(7000%Z, Examples.bot_event (Z.of_nat n + 2) "yo")].
Proof. unfold Examples.arrivals. rewrite seq_S, map_app. reflexivity. Qed.

Lemma pending_view_S n :
  Examples.pending_view (S n) =
  step (Examples.pending_view n) (7000%Z, Examples.bot_event (Z.of_nat n + 2) "yo").
Proof.
  unfold Examples.pending_view, run. rewrite arrivals_S, app_comm_cons, app_comm_cons.
  rewrite foldl_app. reflexivity.
Qed.

(** For every [n] the view can be brought to a state in which exactly [n]
    hide timers are pending. *)
Lemma pending_view_timers n :
  reachable (Examples.pending_view n) /\ mounted (Examples.pending_view n) = true /\
  size (timeouts (Examples.pending_view n)) = n.
Proof.
  assert (Hr : forall n, reachable (Examples.pending_view n)).
  { intros k. eexists _, _, _, _. reflexivity. }
  assert (H : mounted (Examples.pending_view n) = true /\
              socket (Examples.pending_view n) = Some OPEN /\
              size (timeouts (Examples.pending_view n)) = n /\
              forall k e, In (k, e) (visibleTimers (Examples.pending_view n)) ->
                          exists j, k = JsInt j /\ (2 <= j < Z.of_nat n + 2)%Z).
  { induction n as [|n IH].
    - repeat split; try (vm_compute; reflexivity). intros k e Hin. vm_compute in Hin. destruct Hin.
    - destruct IH as (Hm & Ho & Hsize & Hkeys).
      destruct (reachable_ok _ (Hr n)) as [Ht Hv].
      destruct (fresh_bot_arrival 7000%Z (Z.of_nat n + 2) "yo" (Examples.pending_view n)
                  Hm Ho Ht Hv) as (Hm' & Ho' & Hsize' & Hkeys').
      + lia.
      + intros k e Hin. destruct (Hkeys k e Hin) as (j & -> & Hj). exists j. split; [reflexivity|lia].
      + rewrite pending_view_S. split; [exact Hm'|]. split; [exact Ho'|]. split.
        * rewrite Hsize', Hsize. reflexivity.
        * intros k e Hin. destruct (Hkeys' k e Hin) as [Hold | ->].
          -- destruct (Hkeys k e Hold) as (j & -> & Hj). exists j. split; [reflexivity|lia].
          -- exists (Z.of_nat n + 2)%Z. split; [reflexivity|lia]. }
  destruct H as (Hm & _ & Hsize & _). auto.
Qed.

(** *** Teardown *)

Lemma step_after_teardown s o :
  mounted s = false -> timeouts s = ∅ -> interval s = None ->
  messages (step s o) = messages s /\ mounted (step s o) = false /\
  timeouts (step s o) = ∅ /\ interval (step s o) = None.
Proof.
  intros Hm Ht Hi. destruct o as [now ev]. unfold step. simpl.
  destruct (handler_cases now ev s)
    as [(Hmsg & Hid & (F1 & F2 & F3 & F4 & F5) & _)
       | [(Hm' & _) | [(h & mid & -> & Hh) | [-> Hm']]]].
  - rewrite (commit_same _ _ _ Hid). repeat split; congruence.
  - congruence.
  - rewrite Ht, lookup_empty in Hh. discriminate.
  - congruence.
Qed.

Lemma run_after_teardown s trace :
  mounted s = false -> timeouts s = ∅ -> interval s = None ->
  messages (run s trace) = messages s /\ timeouts (run s trace) = ∅ /\
  interval (run s trace) = None.
Proof.
  revert s. induction trace as [|o trace IH]; intros s Hm Ht Hi; simpl; [auto|].
  destruct (step_after_teardown s o Hm Ht Hi) as (E & Hm' & Ht' & Hi').
  destruct (IH _ Hm' Ht' Hi') as (E' & Ht'' & Hi''). repeat split; congruence.
Qed.

Lemma teardown_facts (s : State) (now : Z) (trace : list (Z * Event)) :
  reachable s -> mounted s = true ->
  let s' := step s (now, Unmount) in
  timeouts s' = ∅ /\ visibleTimers s' = [] /\ interval s' = None /\
  messages s' = messages s /\
  messages (run s' trace) = messages s /\
  timeouts (run s' trace) = ∅ /\ interval (run s' trace) = None.
Proof.
  intros Hr Hm s'.
  assert (E : s' = unmount s).
  { subst s'. unfold step. simpl. rewrite Hm. apply commit_same, unmount_fields. }
  destruct (reachable_ok s Hr) as [Ht _].
  destruct (unmount_fields s) as (Hmsg & _ & _ & Hi & Hmnt & Hto & Hvt & _).
  destruct (timers_cleanup_cancels_all s Ht) as [Hc _].
  assert (Hto' : timeouts s' = ∅) by (rewrite E, Hto; exact Hc).
  rewrite <- E in Hmsg, Hi, Hmnt, Hvt.
  destruct (run_after_teardown s' trace Hmnt Hto' Hi) as (R1 & R2 & R3).
  repeat split; try assumption. congruence.
Qed.

(** C6.  For every number [N], a view can have [N] hide timers pending,
    and teardown of a view with [N] hide timers pending cancels them all:
    none is pending afterwards, no entry is left, the sampling interval is
    cleared, and the store is the one teardown found, so no hide action
    ran.  Whatever happens after teardown, the store stays that one and no
    timer comes back. *)
Theorem teardown_cancels_every_timer (N : nat) :
  (exists s, reachable s /\ mounted s = true /\ size (timeouts s) = N) /\
  forall s now trace,
    reachable s -> mounted s = true -> size (timeouts s) = N ->
    let s' := step s (now, Unmount) in
    timeouts s' = ∅ /\ visibleTimers s' = [] /\ interval s' = None /\
    messages s' = messages s /\
    messages (run s' trace) = messages s /\
    timeouts (run s' trace) = ∅ /\ interval (run s' trace) = None.
Proof.
  split.
  - exists (Examples.pending_view N). apply pending_view_timers.
  - intros s now trace Hr Hm _. apply teardown_facts; assumption.
Qed.

(** *** Idling *)




End ChatInvariants.

(** ** The participant poll *)

Section AdminPoll.
Import Js AdminPage.

Lemma get_total (u : JsValue) (k : string) :
  u <> JsNull -> u <> JsUndefined -> exists v, get u k = Normal v.
Proof. destruct u; simpl; intros H1 H2; try congruence; eauto. Qed.

(** [normalize] throws on [null] and [undefined] only. *)
Lemma normalize_total (fresh : positive) (u : JsValue) :
  u <> JsNull -> u <> JsUndefined ->
  exists uid name conn msgs,
    get u "user_id" = Normal uid /\ get u "player_name" = Normal name /\
    get u "connected" = Normal conn /\ get u "messages_sent" = Normal msgs /\
    normalize fresh u =
    Normal {| user_id := uid;
              player_name := if truthy name then name else uid;
              connected := truthy conn;
              messages_sent := if truthy msgs then msgs else JsArray fresh [] |}.
Proof.
  intros H1 H2.
  destruct (get_total u "user_id" H1 H2) as [uid Hu].
  destruct (get_total u "player_name" H1 H2) as [name Hn].
  destruct (get_total u "connected" H1 H2) as [conn Hc].
  destruct (get_total u "messages_sent" H1 H2) as [msgs Hs].
  exists uid, name, conn, msgs. repeat (split; [assumption|]).
  unfold normalize. rewrite Hu, Hn, Hc, Hs. reflexivity.
Qed.

Lemma map_from_total {A} (f : nat -> JsValue -> completion A) (g : nat -> JsValue -> A)
    (elems : list JsValue) (i : nat) :
  (forall j u, elems !! j = Some u -> f (i + j)%nat u = Normal (g (i + j)%nat u)) ->
  map_from f i elems = Normal (imap (fun j u => g (i + j)%nat u) elems).
Proof.
  revert i. induction elems as [|u elems IH]; intros i H; [reflexivity|].
  rewrite imap_cons. cbn [map_from].
  specialize (H 0%nat u eq_refl) as H0. rewrite Nat.add_0_r in *. rewrite H0.
  rewrite (IH (S i)).
  - cbn. f_equal. f_equal. apply imap_ext. intros j x _. cbn. f_equal. lia.
  - intros j x Hj. replace (S i + j)%nat with (i + S j)%nat by lia. apply H. exact Hj.
Qed.

(** The record the poll keeps for [u], read at index [i]. *)
Lemma fetchParticipants_ok alloc res r elems s :
  ok res = true -> json res = Normal (JsArray r elems) ->
  (forall i u, elems !! i = Some u -> u <> JsNull /\ u <> JsUndefined) ->
  exists ps,
    fetchParticipants alloc (Normal res) s = mkState ps false None /\
    List.length ps = List.length elems /\
    forall i u, elems !! i = Some u -> exists p, ps !! i = Some p /\ normalize (alloc i) u = Normal p.
Proof.
  intros Hok Hjson Hobj.
  set (g := fun (i : nat) (u : JsValue) =>
              match normalize (alloc i) u with
              | Normal p => p
              | Throw _ => mkParticipant JsUndefined JsUndefined false JsUndefined
              end).
  assert (Hg : forall j u, elems !! j = Some u ->
                 normalize (alloc (0 + j)%nat) u = Normal (g (0 + j)%nat u)).
  { intros j u Hj. destruct (Hobj j u Hj) as [H1 H2].
    destruct (normalize_total (alloc j) u H1 H2) as (? & ? & ? & ? & _ & _ & _ & _ & E).
    simpl. unfold g. rewrite E. reflexivity. }
  exists (imap (fun j u => g (0 + j)%nat u) elems). split; [|split].
  - unfold fetchParticipants. simpl. rewrite Hok, Hjson. simpl.
    rewrite (map_from_total (fun i u => normalize (alloc i) u) g elems 0%nat Hg).
    reflexivity.
  - apply length_imap.
  - intros i u Hi. exists (g i u). split.
    + rewrite list_lookup_imap, Hi. reflexivity.
    + apply (Hg i u Hi).
Qed.

(** C9 (as amended).  After a poll that answers with an array of records,
    the page holds one normalized record per record received, in the same
    order, with no error and loading off.  The normalized record has the
    record's [user_id]; its [player_name] is the record's when that is
    truthy and the [user_id] otherwise (so also for a name that is supplied
    but empty); [connected] is the truthiness of the record's; and
    [messages_sent] is the record's when that is truthy, as every array is,
    the empty one included, and a new empty array otherwise.  A missing
    property reads as [undefined], which is not truthy. *)
Theorem poll_normalizes_records (alloc : nat -> positive) (res : Response)
    (r : positive) (elems : list JsValue) (s : State) :
  ok res = true -> json res = Normal (JsArray r elems) ->
  (forall i u, elems !! i = Some u -> u <> JsNull /\ u <> JsUndefined) ->
  let s' := fetchParticipants alloc (Normal res) s in
  error s' = None /\ loading s' = false /\
  List.length (participants s') = List.length elems /\
  forall i u, elems !! i = Some u ->
    exists p uid name conn msgs,
      participants s' !! i = Some p /\
      get u "user_id" = Normal uid /\ get u "player_name" = Normal name /\
      get u "connected" = Normal conn /\ get u "messages_sent" = Normal msgs /\
      user_id p = uid /\
      player_name p = (if truthy name then name else uid) /\
      connected p = truthy conn /\
      messages_sent p = (if truthy msgs then msgs else JsArray (alloc i) []) /\
      (name = JsUndefined -> player_name p = uid) /\
      (msgs = JsUndefined -> messages_sent p = JsArray (alloc i) []) /\
      (forall r' xs, msgs = JsArray r' xs -> messages_sent p = msgs).
Proof.
  intros Hok Hjson Hobj s'.
  destruct (fetchParticipants_ok alloc res r elems s Hok Hjson Hobj) as (ps & E & Hlen & Hps).
  subst s'. rewrite E. simpl. repeat (split; [auto|]).
  intros i u Hi. destruct (Hps i u Hi) as (p & Hp & Hn).
  destruct (Hobj i u Hi) as [H1 H2].
  destruct (normalize_total (alloc i) u H1 H2) as (uid & name & conn & msgs & G1 & G2 & G3 & G4 & E').
  rewrite E' in Hn. inversion Hn; subst p; clear Hn.
  eexists; exists uid, name, conn, msgs. split; [exact Hp|]. simpl.
  repeat (split; [first [assumption | reflexivity]|]).
  split; [|split].
  - intros ->. reflexivity.
  - intros ->. reflexivity.
  - intros r' xs ->. reflexivity.
Qed.

End AdminPoll.

(** ** The theorems at sample views, and the inputs that bound them *)

Section Instances.
Import Js TextChat View Examples.

Lemma reachable_from_mount name constructed t0 trace :
  reachable (run (mount name constructed t0) trace).
Proof. exists name, constructed, t0, trace. reflexivity. Defined.

(** A message the user sent has [visible], which it did not have, set to
    [false] when the hide timer of a bot message with the same id fires. *)
Lemma local_message_flagged_on_id_collision :
  messages collision_view !! 1%nat =
    Some {| Message.id := JsInt 1500; Message.sender := ann;
            Message.text := JsString "hi"; Message.visible := None |} /\
  is_bot {| Message.id := JsInt 1500; Message.sender := ann;
            Message.text := JsString "hi"; Message.visible := None |} = false /\
  timeouts collision_view !! 4%nat = Some (JsInt 1500) /\
  messages (step collision_view (6600%Z, Timeout 4%nat)) !! 1%nat =
    Some {| Message.id := JsInt 1500; Message.sender := ann;
            Message.text := JsString "hi"; Message.visible := Some false |}.
Proof. repeat split; vm_compute; reflexivity. Qed.

(** The first message of a view has a pending timer whose firing hides
    it, and it stays hidden through what follows. *)
Lemma store_grows_and_messages_only_fade_witness :
  (exists h mid, timeouts mounted_view !! h = Some mid /\
     forall now, exists m', messages (step mounted_view (now, Timeout h)) !! 0%nat = Some m' /\
                            Message.visible m' = Some false) /\
  (List.length (messages idle_view)
   <= List.length (messages (run idle_view [(6100%Z, Open); (6200%Z, bot_event 7 "yo")])))%nat.
Proof.
  split.
  - destruct (store_grows_and_messages_only_fade mounted_view []) as (_ & _ & _ & H).
    assert (Hm : mounted mounted_view = true) by (vm_compute; reflexivity).
    apply (H (reachable_from_mount ann true 1000%Z []) Hm 0%nat first_message);
      vm_compute; reflexivity.
  - apply (store_grows_and_messages_only_fade idle_view).
Defined.

(** C2.  The progress value is not kept within [0, 100]: the tick clamps
    it from above only.  In a view whose only timer started at 1000, a tick
    that reads 500 from the clock, which stepped back, computes
    [Math.min(100, (-500 / 5000) * 100)] and stores -10. *)
Lemma progress_negative_when_clock_steps_back :
  mounted mounted_view = true /\
  visibleTimers mounted_view = [(JsInt 1, {| tid := 1; start := 1000 |})] /\
  interval mounted_view = Some 2%nat /\
  loadingValue (step mounted_view (500%Z, Interval)) = Double.of_Z (-10) /\
  Double.ltb (loadingValue (step mounted_view (500%Z, Interval))) Double.zero = true.
Proof. repeat split; vm_compute; reflexivity. Qed.

(** The quotient is rounded before the product: 7 ms after the start the
    tick stores 0.13999999999999999, where [100 * 7 / 5000] is 0.14. *)
Lemma tick_rounds_the_quotient_first :
  loadingValue (step mounted_view (1007%Z, Interval)) = S754_finite false 5044031582654955 (-55) /\
  Double.div (Double.mul (Double.of_Z 100) (Double.of_Z 7)) (Double.of_Z 5000)
  = S754_finite false 5044031582654956 (-55).
Proof. split; vm_compute; reflexivity. Qed.


(** A send while the socket is still connecting: appended, not sent. *)
Lemma send_appends_whatever_the_transport_witness :
  mounted mounted_view = true /\ connected mounted_view = false /\
  List.length (messages (step (setText "hi" mounted_view) (1500%Z, Submit false))) = 2%nat /\
  sent (step (setText "hi" mounted_view) (1500%Z, Submit false)) = [].
Proof.
  destruct (send_appends_whatever_the_transport (setText "hi" mounted_view) 1500%Z false)
    as (_ & Hlen & Hsent & _).
  - vm_compute. reflexivity.
  - vm_compute. discriminate.
  - assert (Hm : mounted mounted_view = true) by (vm_compute; reflexivity).
    assert (Hc : connected mounted_view = false) by (vm_compute; reflexivity).
    refine (conj Hm (conj Hc (conj _ _))).
    + rewrite Hlen. vm_compute. reflexivity.
    + rewrite Hsent; vm_compute; reflexivity.
Defined.

(** Two spaces are not sent, nor is a text of an ideographic space
    (U+3000), an em space (U+2003) and a line separator (U+2028);
    [" hi "] is sent as ["hi"]. *)
Lemma send_blank_is_noop_witness :
  trim "  " = "" /\
  trim [12288; 8195; 8232]%N = "" /\
  step (setText [12288; 8195; 8232]%N mounted_view) (1500%Z, Submit false)
  = setText [12288; 8195; 8232]%N mounted_view /\
  step (setText "  " mounted_view) (1500%Z, Submit false) = setText "  " mounted_view /\
  exists m, messages (step typed_view (1500%Z, Submit false)) = messages typed_view ++ [m] /\
            Message.text m = JsString "hi".
Proof.
  split; [reflexivity|]. split; [reflexivity|]. split; [|split].
  - destruct (send_blank_is_noop (setText [12288; 8195; 8232]%N mounted_view) 1500%Z false)
      as (_ & H & _).
    apply H. vm_compute. reflexivity.
  - destruct (send_blank_is_noop (setText "  " mounted_view) 1500%Z false) as (_ & H & _).
    apply H. vm_compute. reflexivity.
  - destruct (send_blank_is_noop typed_view 1500%Z false) as (_ & _ & H).
    destruct H as (m & Hm & Ht); [vm_compute; discriminate | vm_compute; reflexivity |].
    exists m. split; [exact Hm|]. rewrite Ht. vm_compute. reflexivity.
Defined.

(** The timer of the second message fires: the first one is untouched. *)
Lemma hide_timer_fire_flips_only_its_id_witness :
  mounted two_timers_view = true /\ timeouts two_timers_view !! 3%nat = Some (JsInt 7) /\
  List.length (messages (step two_timers_view (6600%Z, Timeout 3%nat))) = 2%nat /\
  messages (step two_timers_view (6600%Z, Timeout 3%nat)) !! 0%nat = Some first_message /\
  JsMap.has (JsInt 7) (visibleTimers (step two_timers_view (6600%Z, Timeout 3%nat))) = false.
Proof.
  assert (Hm : mounted two_timers_view = true) by (vm_compute; reflexivity).
  assert (Hh : timeouts two_timers_view !! 3%nat = Some (JsInt 7)) by (vm_compute; reflexivity).
  destruct (hide_timer_fire_flips_only_its_id two_timers_view 6600%Z 3%nat (JsInt 7) Hm Hh)
    as (Hlen & Hat & _ & Hgone).
  refine (conj Hm (conj Hh (conj _ (conj _ Hgone)))).
  - rewrite Hlen. vm_compute. reflexivity.
  - rewrite (Hat 0%nat first_message); vm_compute; reflexivity.
Defined.

(** Teardown with two hide timers pending. *)
Lemma teardown_cancels_every_timer_witness :
  reachable two_timers_view /\ mounted two_timers_view = true /\
  size (timeouts two_timers_view) = 2%nat /\
  timeouts (step two_timers_view (2000%Z, Unmount)) = ∅ /\
  messages (run (step two_timers_view (2000%Z, Unmount))
              [(6000%Z, Timeout 1%nat); (6100%Z, Interval); (6600%Z, Timeout 3%nat)])
  = messages two_timers_view.
Proof.
  assert (Hr : reachable two_timers_view) by apply reachable_from_mount.
  assert (Hm : mounted two_timers_view = true) by (vm_compute; reflexivity).
  assert (Hn : size (timeouts two_timers_view) = 2%nat) by (vm_compute; reflexivity).
  destruct (teardown_cancels_every_timer 2) as [_ H].
  destruct (H two_timers_view 2000%Z
              [(6000%Z, Timeout 1%nat); (6100%Z, Interval); (6600%Z, Timeout 3%nat)] Hr Hm Hn)
    as (Hto & _ & _ & _ & Hrun & _).
  refine (conj Hr (conj Hm (conj Hn (conj Hto Hrun)))).
Defined.

End Instances.

Section AdminInstances.
Import Js AdminPage AdminExamples.

(** A name that is supplied but empty is replaced by the user id. *)
Lemma empty_player_name_becomes_user_id :
  get unnamed_record "player_name" = Normal (JsString "") /\
  normalize 9 unnamed_record =
    Normal {| user_id := JsString "u1"; player_name := JsString "u1";
              connected := true; messages_sent := JsArray 9 [] |}.
Proof. split; vm_compute; reflexivity. Qed.

(** A poll that answers with two records. *)
Lemma poll_normalizes_records_witness :
  ok poll_response = true /\
  List.length (participants
                 (fetchParticipants (fun _ => 9%positive) (Normal poll_response) empty_page))
  = 2%nat /\
  error (fetchParticipants (fun _ => 9%positive) (Normal poll_response) empty_page) = None.
Proof.
  destruct (poll_normalizes_records (fun _ => 9%positive) poll_response 5
              [bob_record; unnamed_record] empty_page) as (Herr & _ & Hlen & _).
  - reflexivity.
  - reflexivity.
  - intros [|[|i]] u Hi; inversion Hi; subst; split; discriminate.
  - refine (conj eq_refl (conj Hlen Herr)).
Defined.

End AdminInstances.

(** ** More of the chat view: scheduling, transport, display *)

Section ChatMore.
Import Js TextChat View Timers ChatRender.

(** What an event does to the store: nothing, or it appends the bot
    message of an inbound event, or it appends the local message of a send,
    or it hides the messages of the id of a timer that fired. *)
Lemma step_messages_cases now ev s :
  messages (step s (now, ev)) = messages s \/
  (mounted s = true /\ socket s = Some OPEN /\
   exists payload pid ptext,
     ev = MessageEvent (Normal payload) /\ get payload "sender" = Normal BOT /\
     get payload "id" = Normal pid /\ get payload "text" = Normal ptext /\
     messages (step s (now, ev)) =
     messages s ++ [ {| Message.id := js_or pid (JsInt now); Message.sender := BOT;
                        Message.text := js_or ptext (JsString "");
                        Message.visible := Some true |} ]) \/
  (mounted s = true /\ trim (text s) <> "" /\
   exists throws,
     ev = Submit throws /\
     messages (step s (now, ev)) =
     messages s ++ [ {| Message.id := JsInt now; Message.sender := player_name s;
                        Message.text := JsString (trim (text s));
                        Message.visible := None |} ]) \/
  (mounted s = true /\
   exists h mid,
     ev = Timeout h /\ timeouts s !! h = Some mid /\
     messages (step s (now, ev)) =
     List.map (fun msg => if strict_equals (Message.id msg) mid then Message.hide msg else msg)
       (messages s)).
Proof.
  unfold step at 1. simpl fst. simpl snd. rewrite commit_messages.
  destruct ev; simpl.
  - left. destruct s as [? ? ? ? ? ? [[]|] ? ? ? ? ? ? ?]; reflexivity.
  - destruct (socket s) as [[]|] eqn:Hsock; try (left; reflexivity).
    destruct data as [payload|e]; [|left; reflexivity].
    destruct (mounted s) eqn:Hm.
    2:{ left. unfold onmessage, onmessage_try. simpl.
        destruct (truthy payload); [|reflexivity].
        destruct (get payload "sender") as [from|e]; simpl; [|reflexivity].
        destruct (strict_equals from BOT); [|reflexivity].
        destruct (get payload "id") as [pid|e]; simpl; [|reflexivity].
        destruct (get payload "text") as [ptext|e]; simpl; [|reflexivity].
        unfold setMessages. rewrite Hm. reflexivity. }
    assert (Hdec : get payload "sender" = Normal BOT \/ get payload "sender" <> Normal BOT).
    { destruct (get payload "sender") as [from|e]; [|right; discriminate].
      destruct (strict_equals from BOT) eqn:E.
      - left. apply strict_equals_BOT in E. congruence.
      - right. intros H. inversion H; subst. rewrite strict_equals_refl in E. discriminate. }
    destruct Hdec as [Hb | Hb].
    + right. left. split; [reflexivity|]. split; [reflexivity|].
      destruct (onmessage_bot now s payload Hm Hb) as (pid & ptext & Hi & Ht & E).
      exists payload, pid, ptext. repeat (split; [assumption || reflexivity|]).
      unfold step. simpl. rewrite Hsock, commit_messages, E. reflexivity.
    + left. rewrite (onmessage_other now s payload Hb). reflexivity.
  - left. destruct s as [? ? ? ? ? ? [[]|] ? ? ? ? ? ? ?]; reflexivity.
  - left. destruct s as [? ? ? ? ? ? [[]|] ? ? ? ? ? ? ?]; reflexivity.
  - left. unfold setText. destruct (mounted s); reflexivity.
  - destruct (mounted s) eqn:Hm; [|left; reflexivity].
    destruct (string_eqb (trim (text s)) "") eqn:E.
    + apply string_eqb_eq in E. left. rewrite (send_blank _ _ _ E). reflexivity.
    + apply string_eqb_neq in E. right. right. left.
      split; [reflexivity|]. split; [exact E|]. exists ws_send_throws. split; [reflexivity|].
      unfold step. simpl. rewrite Hm, commit_messages. apply send_messages; assumption.
  - destruct (timeouts s !! handle) as [mid|] eqn:Hh; [|left; reflexivity].
    destruct (mounted s) eqn:Hm.
    + right. right. right. split; [reflexivity|]. exists handle, mid.
      split; [reflexivity|]. split; [exact Hh|].
      apply step_timeout_messages; assumption.
    + left. unfold hide_callback, setMessages. simpl. rewrite Hm. reflexivity.
  - left. destruct (interval s); [|reflexivity].
    unfold interval_callback, setLoadingValue.
    destruct (starts _); destruct (mounted s); reflexivity.
  - left. destruct (mounted s); [|reflexivity]. apply unmount_fields.
Qed.

(** *** The timers and the visible bot messages *)

Lemma keys_visible_mono ms ms' timers :
  (forall m, In m ms -> In m ms') ->
  keys_are_visible_bots ms timers -> keys_are_visible_bots ms' timers.
Proof.
  intros Hsub H k e Hin. destruct (H k e Hin) as (m & Hm & Hrest).
  exists m. split; [apply Hsub, Hm | exact Hrest].
Qed.

Lemma schedule_keys_visible now ms s m :
  In m ms -> keys_are_visible_bots ms (visibleTimers s) ->
  keys_are_visible_bots ms (visibleTimers (schedule now s m)).
Proof.
  intros Hm H. unfold schedule.
  destruct (is_bot m) eqn:Hb; simpl; [|exact H].
  destruct (Message.is_visible m) eqn:Hv; simpl; [|exact H].
  destruct (JsMap.has (Message.id m) (visibleTimers s)) eqn:Hh; simpl; [exact H|].
  unfold JsMap.set. rewrite Hh. intros k e [Hin | [E | []]]%in_app_or.
  - apply (H k e Hin).
  - inversion E; subst. exists m. auto.
Qed.

Lemma foldl_schedule_keys_visible now ms l s :
  (forall m, In m l -> In m ms) -> keys_are_visible_bots ms (visibleTimers s) ->
  keys_are_visible_bots ms (visibleTimers (foldl (schedule now) s l)).
Proof.
  revert s. induction l as [|m l IH]; intros s Hsub H; simpl; [exact H|].
  apply IH; [intros m' Hm'; apply Hsub; right; exact Hm'|].
  apply schedule_keys_visible; [apply Hsub; left; reflexivity | exact H].
Qed.

Lemma effects_keys_visible now s :
  keys_are_visible_bots (messages s) (visibleTimers s) ->
  keys_are_visible_bots (messages (effects now s)) (visibleTimers (effects now s)).
Proof.
  intros H. destruct (effects_effects_frame now s) as (-> & _).
  unfold effects.
  destruct (progress_effect_timers (visibility_scheduler now (progress_cleanup s))) as (-> & _).
  unfold visibility_scheduler. apply foldl_schedule_keys_visible; [auto | exact H].
Qed.

Lemma hide_keeps_other_ids mid (ms : list Message.t) (m : Message.t) :
  In m ms -> strict_equals (Message.id m) mid = false ->
  In m (List.map (fun msg => if strict_equals (Message.id msg) mid
                             then Message.hide msg else msg) ms).
Proof.
  intros Hin Hne. apply in_map_iff. exists m. rewrite Hne. auto.
Qed.

Lemma step_keys_visible s o :
  keys_are_visible_bots (messages s) (visibleTimers s) ->
  keys_are_visible_bots (messages (step s o)) (visibleTimers (step s o)).
Proof.
  intros H. destruct o as [now ev]. unfold step. simpl.
  assert (Hcommit : forall s1,
            keys_are_visible_bots (messages s1) (visibleTimers s1) ->
            keys_are_visible_bots (messages (commit now s s1)) (visibleTimers (commit now s s1))).
  { intros s1 H1. unfold commit. destruct (Nat.eqb _ _); [exact H1|].
    apply effects_keys_visible, H1. }
  apply Hcommit.
  destruct (handler_cases now ev s)
    as [(Hmsg & _ & (F1 & _) & _) | [(_ & _ & (F1 & _) & _ & m & Hmsg)
       | [(h & mid & -> & Hh) | [-> Hm]]]].
  - rewrite Hmsg, F1. exact H.
  - rewrite Hmsg, F1. revert H. apply keys_visible_mono.
    intros m' Hm'. apply in_or_app. left. exact Hm'.
  - simpl. rewrite Hh. unfold hide_callback, setMessages. simpl.
    destruct (mounted s); simpl.
    + intros k e Hin. apply In_delete in Hin. destruct Hin as [Hin Hne].
      destruct (H k e Hin) as (m & Hm & Hb & Hv & <-).
      exists m. split; [|auto]. apply hide_keeps_other_ids; assumption.
    + intros k e Hin. apply In_delete in Hin. destruct Hin as [Hin _]. apply (H k e Hin).
  - simpl. rewrite Hm. destruct (unmount_fields s) as (_ & _ & _ & _ & _ & _ & -> & _).
    intros k e [].
Qed.

Lemma reachable_keys_visible s :
  reachable s -> keys_are_visible_bots (messages s) (visibleTimers s).
Proof.
  intros (name & constructed & t0 & trace & ->).
  assert (H0 : keys_are_visible_bots (messages (mount name constructed t0))
                 (visibleTimers (mount name constructed t0))).
  { unfold mount. set (s0 := websocket_effect constructed (initial name)).
    destruct (progress_effect_frame (visibility_scheduler t0 s0)) as (-> & _).
    destruct (progress_effect_timers (visibility_scheduler t0 s0)) as (-> & _).
    destruct (visibility_scheduler_frame t0 s0) as (-> & _).
    unfold visibility_scheduler. apply foldl_schedule_keys_visible; [auto|].
    subst s0. destruct constructed; intros k e []. }
  revert H0. generalize (mount name constructed t0).
  induction trace as [|o trace IH]; intros s H; simpl; [exact H|].
  apply IH, step_keys_visible, H.
Qed.

(** *** Idling, and the tick that comes before the render *)




(** X1.  In every state the view reaches, [visibleTimers] has one entry
    per id at most, every entry is keyed by the id of a bot message that is
    stored and visible, and the entries are the pending hide timers: the
    handle and the id of each entry are those of one pending timeout, and
    every pending timeout has its entry.  While the view is mounted, every
    visible bot message has an entry for its id. *)
Theorem timers_track_visible_bot_messages (s : State) :
  reachable s ->
  (forall k1 e1 k2 e2,
     In (k1, e1) (visibleTimers s) -> In (k2, e2) (visibleTimers s) ->
     strict_equals k1 k2 = true -> (k1, e1) = (k2, e2)) /\
  (forall k e, In (k, e) (visibleTimers s) ->
     exists m, In m (messages s) /\ is_bot m = true /\
               Message.is_visible m = true /\ Message.id m = k) /\
  (forall h k, timeouts s !! h = Some k <->
               exists st, In (k, {| tid := h; start := st |}) (visibleTimers s)) /\
  (mounted s = true ->
   forall m, In m (messages s) -> is_bot m = true -> Message.is_visible m = true ->
             JsMap.has (Message.id m) (visibleTimers s) = true).
Proof.
  intros Hr. destruct (reachable_ok s Hr) as [[Hu Hp Hreg Hf] Hv].
  split; [|split; [|split]].
  - intros k1 e1 k2 e2. apply keys_unique_In. exact Hu.
  - apply reachable_keys_visible, Hr.
  - intros h k. split; [apply Hp|].
    intros [st Hin]. apply (Hreg k _ Hin).
  - intros Hm m Hin Hb Hvis. apply (scheduled s Hv Hm m Hin). rewrite Hb, Hvis. reflexivity.
Qed.


(** *** Arrivals and the render that follows them *)






(** *** The arrival of a bot message *)




(** *** The transport *)

(** What a handler does to the socket, the ref, the frames and the global
    name. *)
Lemma step_transport now ev s :
  let s' := step s (now, ev) in
  player_name s' = player_name s /\
  (wsRef s = false -> wsRef s' = false /\ sent s' = sent s) /\
  ((wsRef s = true -> mounted s = true /\
                      (socket s = Some CONNECTING \/ socket s = Some OPEN)) ->
   (wsRef s' = true -> mounted s' = true /\
                       (socket s' = Some CONNECTING \/ socket s' = Some OPEN))).
Proof.
  intros s'. subst s'. unfold step. simpl fst. simpl snd.
  destruct (commit_frame now s (handler now ev s))
    as (_ & _ & _ & -> & -> & -> & _ & -> & ->).
  assert (Hsame : forall s1,
            wsRef s1 = wsRef s -> sent s1 = sent s -> socket s1 = socket s ->
            mounted s1 = mounted s -> player_name s1 = player_name s ->
            player_name s1 = player_name s /\
            (wsRef s = false -> wsRef s1 = false /\ sent s1 = sent s) /\
            ((wsRef s = true -> mounted s = true /\
                                (socket s = Some CONNECTING \/ socket s = Some OPEN)) ->
             (wsRef s1 = true -> mounted s1 = true /\
                                 (socket s1 = Some CONNECTING \/ socket s1 = Some OPEN)))).
  { intros s1 -> -> -> -> ->. repeat split; auto; tauto. }
  destruct ev; simpl.
  - destruct (socket s) as [[]|] eqn:Hsock; try (apply Hsame; simpl; auto; fail).
    unfold onopen. simpl. split; [reflexivity|]. split; [auto|].
    intros H Hw. destruct (H Hw) as [Hm _]. auto.
  - destruct (socket s) as [[]|] eqn:Hsock; try (apply Hsame; simpl; auto; fail).
    unfold onmessage, onmessage_try.
    destruct data as [payload|e]; simpl; [|apply Hsame; simpl; auto].
    destruct (truthy payload); [|apply Hsame; simpl; auto].
    destruct (get payload "sender") as [from|e]; simpl; [|apply Hsame; simpl; auto].
    destruct (strict_equals from BOT); [|apply Hsame; simpl; auto].
    destruct (get payload "id") as [pid|e]; simpl; [|apply Hsame; simpl; auto].
    destruct (get payload "text") as [ptext|e]; simpl; [|apply Hsame; simpl; auto].
    unfold setMessages. destruct (mounted s) eqn:Hm; apply Hsame; simpl; auto.
  - destruct (socket s) eqn:Hsock; apply Hsame; simpl; auto.
  - destruct (socket s) as [[]|] eqn:Hsock; try (apply Hsame; simpl; auto; fail);
      unfold onclose; simpl;
      (split; [reflexivity|]; split; [auto|]; intros _ X; discriminate X).
  - unfold setText. destruct (mounted s) eqn:Hm; apply Hsame; simpl; auto.
  - destruct (mounted s) eqn:Hm; [|apply Hsame; simpl; auto].
    assert (E : wsRef (send now ws_send_throws s) = wsRef s /\
                socket (send now ws_send_throws s) = socket s /\
                mounted (send now ws_send_throws s) = mounted s /\
                player_name (send now ws_send_throws s) = player_name s /\
                (wsRef s = false -> sent (send now ws_send_throws s) = sent s)).
    { unfold send. destruct (negb _); [auto 6|].
      unfold setText, setMessages. rewrite Hm. simpl. rewrite Hm.
      unfold connected. simpl. destruct (wsRef s) eqn:Hw; simpl.
      - destruct (socket s) as [[]|] eqn:Hsock; try destruct ws_send_throws; simpl;
          repeat split; auto; congruence.
      - repeat split; auto. }
    destruct E as (E1 & E2 & E3 & E4 & E5). rewrite E1, E2, E3, E4, Hm.
    split; [reflexivity|]. split; [intros X; split; [exact X | apply E5; exact X]|].
    intros H X. apply (H X).
  - destruct (timeouts s !! handle); [|apply Hsame; simpl; auto].
    unfold hide_callback, setMessages. simpl. destruct (mounted s) eqn:Hm; apply Hsame; simpl; auto.
  - destruct (interval s); [|apply Hsame; simpl; auto].
    unfold interval_callback, setLoadingValue.
    destruct (starts _); destruct (mounted s) eqn:Hm; apply Hsame; simpl; auto.
  - destruct (mounted s) eqn:Hm; [|apply Hsame; simpl; auto].
    unfold unmount, websocket_cleanup.
    destruct (socket s) as [[]|]; simpl;
      (split; [reflexivity|]; split; [auto|]; intros _ X; discriminate X).
Qed.

Lemma reachable_wsRef s :
  reachable s ->
  wsRef s = true -> mounted s = true /\ (socket s = Some CONNECTING \/ socket s = Some OPEN).
Proof.
  intros (name & constructed & t0 & trace & ->).
  assert (H0 : wsRef (mount name constructed t0) = true ->
               mounted (mount name constructed t0) = true /\
               (socket (mount name constructed t0) = Some CONNECTING \/
                socket (mount name constructed t0) = Some OPEN)).
  { unfold mount. set (s0 := websocket_effect constructed (initial name)).
    destruct (progress_effect_frame (visibility_scheduler t0 s0))
      as (_ & _ & _ & -> & -> & _ & _ & -> & _).
    destruct (visibility_scheduler_frame t0 s0) as (_ & _ & _ & -> & -> & _ & _ & -> & _).
    subst s0. destruct constructed; simpl; [auto | discriminate]. }
  revert H0. generalize (mount name constructed t0).
  induction trace as [|[now ev] trace IH]; intros s H; simpl; [exact H|].
  apply IH. apply (step_transport now ev s). exact H.
Qed.

Lemma run_without_ref s trace :
  wsRef s = false -> wsRef (run s trace) = false /\ sent (run s trace) = sent s.
Proof.
  revert s. induction trace as [|[now ev] trace IH]; intros s H; simpl; [auto|].
  destruct (step_transport now ev s) as (_ & Hw & _). destruct (Hw H) as [H1 H2].
  destruct (IH _ H1) as [H3 H4]. split; congruence.
Qed.

(** X3.  There is no way back to a connection: once the socket could not
    be made, or was closed, or is closing, or the view is torn down, the
    view has no socket to send on, and whatever happens afterwards no
    frame is transmitted any more. *)
Theorem dropped_connection_is_final (s : State) (trace : list (Z * Event)) :
  reachable s ->
  socket s = None \/ socket s = Some CLOSED \/ socket s = Some CLOSING \/ mounted s = false ->
  connected (run s trace) = false /\ sent (run s trace) = sent s.
Proof.
  intros Hr Hdead.
  assert (Hw : wsRef s = false).
  { destruct (wsRef s) eqn:E; [|reflexivity].
    destruct (reachable_wsRef s Hr E) as [Hm [Hs | Hs]];
      destruct Hdead as [H | [H | [H | H]]]; congruence. }
  destruct (run_without_ref s trace Hw) as [H1 H2].
  split; [|exact H2]. unfold connected. rewrite H1. reflexivity.
Qed.

(** X4.  A send of a text that is not blank clears the composed text, and
    is either transmitted or logged, never both and never neither: on an
    open socket whose [send] does not throw, one frame goes out, with the
    id, the sender and the text of the message just appended, and nothing
    is logged; otherwise no frame goes out and one warning is logged. *)
Theorem send_is_transmitted_or_logged (s : State) (now : Z) (ws_send_throws : bool) :
  mounted s = true -> trim (text s) <> "" ->
  let s' := step s (now, Submit ws_send_throws) in
  let m := {| Message.id := JsInt now; Message.sender := player_name s;
              Message.text := JsString (trim (text s)); Message.visible := None |} in
  text s' = "" /\ last (messages s') = Some m /\
  (connected s = true -> ws_send_throws = false ->
   console s' = console s /\ exists f, sent s' = sent s ++ [f] /\ echoes f m) /\
  (connected s = true -> ws_send_throws = true ->
   sent s' = sent s /\
   console s' = console s ++ [(warn, "Failed to send message over WebSocket")]) /\
  (connected s = false ->
   sent s' = sent s /\
   console s' = console s ++ [(warn, "WebSocket not connected - message sent only locally")]).
Proof.
  intros Hm Ht s' m. subst s'. unfold step. simpl fst. simpl snd.
  destruct (commit_frame now s (handler now (Submit ws_send_throws) s))
    as (-> & _ & -> & _ & _ & -> & -> & _).
  simpl. rewrite Hm.
  split; [|split].
  - unfold send. destruct (truthy (JsString (trim (text s)))) eqn:E.
    2:{ apply truthy_string in E. contradiction. }
    simpl. unfold setText, setMessages. rewrite Hm. simpl. rewrite Hm.
    destruct (connected _); [destruct ws_send_throws|]; reflexivity.
  - rewrite (send_messages now ws_send_throws s Hm Ht). apply last_snoc.
  - unfold send. destruct (truthy (JsString (trim (text s)))) eqn:E.
    2:{ apply truthy_string in E. contradiction. }
    simpl. unfold setText, setMessages. rewrite Hm. simpl. rewrite Hm.
    unfold connected. simpl.
    split; [|split].
    + intros Hc ->. rewrite Hc. simpl. split; [reflexivity|]. eexists. split; [reflexivity|].
      repeat split.
    + intros Hc ->. rewrite Hc. simpl. auto.
    + intros Hc. rewrite Hc. simpl. auto.
Qed.

(** *** What goes out and what is stored *)

Lemma step_sent_cases now ev s :
  sent (step s (now, ev)) = sent s \/
  (mounted s = true /\ trim (text s) <> "" /\
   exists throws,
     ev = Submit throws /\
     sent (step s (now, ev)) =
     sent s ++ [ {| frame_id := JsInt now; frame_sender := player_name s;
                    frame_text := JsString (trim (text s)) |} ]).
Proof.
  assert (Hsent : sent (step s (now, ev)) = sent (handler now ev s)).
  { unfold step. simpl. apply commit_frame. }
  rewrite Hsent.
  destruct ev; simpl.
  - left. destruct s as [? ? ? ? ? ? [[]|] ? ? ? ? ? ? ?]; reflexivity.
  - left. destruct (socket s) as [[]|]; try reflexivity.
    unfold onmessage, onmessage_try.
    destruct data as [payload|e]; simpl; [|reflexivity].
    destruct (truthy payload); [|reflexivity].
    destruct (get payload "sender") as [from|e]; simpl; [|reflexivity].
    destruct (strict_equals from BOT); [|reflexivity].
    destruct (get payload "id") as [pid|e]; simpl; [|reflexivity].
    destruct (get payload "text") as [ptext|e]; simpl; [|reflexivity].
    unfold setMessages. destruct (mounted s); reflexivity.
  - left. destruct s as [? ? ? ? ? ? [[]|] ? ? ? ? ? ? ?]; reflexivity.
  - left. destruct s as [? ? ? ? ? ? [[]|] ? ? ? ? ? ? ?]; reflexivity.
  - left. unfold setText. destruct (mounted s); reflexivity.
  - destruct (mounted s) eqn:Hm; [|left; reflexivity].
    destruct (string_eqb (trim (text s)) "") eqn:E.
    + apply string_eqb_eq in E. left. rewrite (send_blank _ _ _ E). reflexivity.
    + apply string_eqb_neq in E.
      destruct (connected s && negb ws_send_throws) eqn:Hc.
      * right. split; [reflexivity|]. split; [exact E|]. exists ws_send_throws.
        split; [reflexivity|]. rewrite (send_sent now ws_send_throws s Hm E), Hc. reflexivity.
      * left. rewrite (send_sent now ws_send_throws s Hm E), Hc. reflexivity.
  - left. destruct (timeouts s !! handle); [|reflexivity].
    unfold hide_callback, setMessages. simpl. destruct (mounted s); reflexivity.
  - left. destruct (interval s); [|reflexivity].
    unfold interval_callback, setLoadingValue.
    destruct (starts _); destruct (mounted s); reflexivity.
  - left. destruct (mounted s); [|reflexivity].
    unfold unmount, websocket_cleanup. destruct (socket s) as [[]|]; reflexivity.
Qed.

Lemma In_extends old new (m : Message.t) :
  Store.extends old new -> In m old ->
  exists m', In m' new /\ Message.id m' = Message.id m /\
             Message.sender m' = Message.sender m /\ Message.text m' = Message.text m.
Proof.
  intros Hext Hin. apply list_elem_of_In, list_elem_of_lookup in Hin. destruct Hin as [i Hi].
  destruct (extends_lookup old new i m Hext Hi) as (m' & Hi' & F1 & F2 & F3 & _).
  exists m'. split; [|auto]. apply list_elem_of_In, list_elem_of_lookup. eauto.
Qed.

Lemma step_echoes s o :
  (forall f, In f (sent s) -> exists m, In m (messages s) /\ echoes f m) ->
  forall f, In f (sent (step s o)) -> exists m, In m (messages (step s o)) /\ echoes f m.
Proof.
  intros H f Hf. destruct o as [now ev].
  assert (Hold : In f (sent s) -> exists m, In m (messages (step s (now, ev))) /\ echoes f m).
  { intros Hin. destruct (H f Hin) as (m & Hm & E1 & E2 & E3).
    destruct (In_extends _ _ m (step_extends s (now, ev)) Hm) as (m' & Hm' & G1 & G2 & G3).
    exists m'. split; [exact Hm'|]. unfold echoes. repeat split; congruence. }
  destruct (step_sent_cases now ev s) as [E | (Hm & Ht & throws & -> & E)].
  - rewrite E in Hf. auto.
  - rewrite E in Hf. apply in_app_or in Hf. destruct Hf as [Hf | [<- | []]]; [auto|].
    eexists. split.
    + unfold step. simpl. rewrite Hm, commit_messages, (send_messages now throws s Hm Ht).
      apply in_or_app. right. left. reflexivity.
    + repeat split.
Qed.

(** X5.  Nothing is transmitted that is not in the store: in every state
    the view reaches, every frame that went out has the id, the sender and
    the text of a stored message. *)
Theorem sent_frames_echo_stored_messages (s : State) :
  reachable s ->
  forall f, In f (sent s) -> exists m, In m (messages s) /\ echoes f m.
Proof.
  intros (name & constructed & t0 & trace & ->).
  assert (H0 : forall f, In f (sent (mount name constructed t0)) ->
                 exists m, In m (messages (mount name constructed t0)) /\ echoes f m).
  { assert (E : sent (mount name constructed t0) = []).
    { unfold mount. set (s0 := websocket_effect constructed (initial name)).
      destruct (progress_effect_frame (visibility_scheduler t0 s0))
        as (_ & _ & _ & _ & _ & -> & _).
      destruct (visibility_scheduler_frame t0 s0) as (_ & _ & _ & _ & _ & -> & _).
      subst s0. destruct constructed; reflexivity. }
    rewrite E. intros f []. }
  revert H0. generalize (mount name constructed t0).
  induction trace as [|o trace IH]; intros s H; simpl; [exact H|].
  apply IH, step_echoes, H.
Qed.

(** X6.  A second send right after a send changes nothing: the first one
    cleared the composed text, so the second finds it blank.  That holds
    whatever the first send did and at whatever instants the two occur. *)
Theorem double_send_sends_once (s : State) (t1 t2 : Z) (throws1 throws2 : bool) :
  step (step s (t1, Submit throws1)) (t2, Submit throws2) = step s (t1, Submit throws1).
Proof.
  set (s1 := step s (t1, Submit throws1)).
  assert (Hcase : mounted s1 = false \/ trim (text s1) = "").
  { subst s1. unfold step. simpl fst. simpl snd.
    destruct (commit_frame t1 s (handler t1 (Submit throws1) s))
      as (_ & _ & -> & _ & _ & _ & _ & -> & _).
    simpl. destruct (mounted s) eqn:Hm; [right | left; exact Hm].
    unfold send. destruct (truthy (JsString (trim (text s)))) eqn:E; simpl.
    - unfold setText, setMessages. rewrite Hm. simpl. rewrite Hm.
      destruct (connected _); [destruct throws1|]; reflexivity.
    - apply truthy_string in E. exact E. }
  unfold step at 1. simpl.
  assert (Hs : (if mounted s1 then send t2 throws2 s1 else s1) = s1).
  { destruct Hcase as [-> | Hblank]; [reflexivity|].
    destruct (mounted s1); [apply send_blank; exact Hblank | reflexivity]. }
  rewrite Hs. apply commit_same. reflexivity.
Qed.

(** *** What the store holds *)

Lemma trimEnd_keeps_head c r :
  is_white_space c = false -> exists r', trimEnd (c :: r) = c :: r'.
Proof.
  intros Hc. simpl. destruct (trimEnd r); [rewrite Hc|]; eauto.
Qed.

Lemma trimEnd_cons c s :
  trimEnd (c :: s) =
  match trimEnd s with
  | [] => if is_white_space c then [] else [c]
  | r => c :: r
  end.
Proof. reflexivity. Qed.

Lemma trimEnd_idempotent s : trimEnd (trimEnd s) = trimEnd s.
Proof.
  induction s as [|c s IH]; [reflexivity|].
  rewrite (trimEnd_cons c s). destruct (trimEnd s) as [|d r] eqn:E.
  - destruct (is_white_space c) eqn:Hc; [reflexivity|].
    rewrite trimEnd_cons. simpl. rewrite Hc. reflexivity.
  - rewrite trimEnd_cons, IH. reflexivity.
Qed.

(** Trimming what was trimmed changes nothing. *)
Lemma trim_idempotent s : trim (trim s) = trim s.
Proof.
  unfold trim. destruct (trimStart_head s) as [E | (c & r & E & Hc)].
  - rewrite E. reflexivity.
  - rewrite E. destruct (trimEnd_keeps_head c r Hc) as [r' Er]. rewrite Er.
    simpl trimStart. rewrite Hc. rewrite <- Er. apply trimEnd_idempotent.
Qed.

Lemma is_bot_BOT m : Message.sender m = BOT -> is_bot m = true.
Proof. intros E. unfold is_bot. rewrite E. reflexivity. Qed.

Lemma step_store_origin s o :
  (forall m, In m (messages s) -> is_bot m = true \/ own_echo (player_name s) m) ->
  forall m, In m (messages (step s o)) ->
            is_bot m = true \/ own_echo (player_name (step s o)) m.
Proof.
  intros H m Hin. destruct o as [now ev].
  destruct (step_transport now ev s) as (-> & _).
  destruct (step_messages_cases now ev s)
    as [E | [(_ & _ & payload & pid & ptext & _ & _ & _ & _ & E)
       | [(_ & Ht & throws & _ & E) | (_ & h & mid & _ & _ & E)]]];
    rewrite E in Hin.
  - auto.
  - apply in_app_or in Hin. destruct Hin as [Hin | [<- | []]]; [auto|].
    left. apply is_bot_BOT. reflexivity.
  - apply in_app_or in Hin. destruct Hin as [Hin | [<- | []]]; [auto|].
    right. split; [reflexivity|]. exists now, (trim (text s)).
    repeat split; [exact Ht | apply trim_idempotent].
  - apply in_map_iff in Hin. destruct Hin as (m0 & <- & Hin0).
    destruct (H m0 Hin0) as [Hb | Ho];
      destruct (strict_equals (Message.id m0) mid); auto.
Qed.

(** X7.  The store of a view holds bot messages and the echoes of the
    user's own sends, and nothing else: every stored message that is not a
    bot message has the user's name as its sender, so it is drawn as the
    user's own, a clock instant as its id, and a text that is not empty and
    has no white space at either end. *)
Theorem store_holds_bot_messages_and_own_echoes (s : State) :
  reachable s ->
  forall m, In m (messages s) -> is_bot m = false ->
    own_echo (player_name s) m /\ mine s m = true /\ displayed m = true.
Proof.
  intros (name & constructed & t0 & trace & ->).
  assert (H : forall m, In m (messages (run (mount name constructed t0) trace)) ->
                is_bot m = true \/
                own_echo (player_name (run (mount name constructed t0) trace)) m).
  { assert (H0 : forall m, In m (messages (mount name constructed t0)) ->
                   is_bot m = true \/ own_echo (player_name (mount name constructed t0)) m).
    { assert (E : messages (mount name constructed t0) = [first_message]).
      { unfold mount. set (s0 := websocket_effect constructed (initial name)).
        destruct (progress_effect_frame (visibility_scheduler t0 s0)) as (-> & _).
        destruct (visibility_scheduler_frame t0 s0) as (-> & _).
        subst s0. destruct constructed; reflexivity. }
      rewrite E. intros m [<- | []]. left. reflexivity. }
    revert H0. generalize (mount name constructed t0).
    induction trace as [|o trace IH]; intros s H; simpl; [exact H|].
    apply IH, step_store_origin, H. }
  intros m Hin Hb. destruct (H m Hin) as [Hb' | Ho]; [congruence|].
  split; [exact Ho|]. split.
  - unfold mine. destruct Ho as [-> _]. apply strict_equals_refl.
  - unfold displayed. rewrite Hb. apply orb_true_r.
Qed.

(** *** What stays on screen *)

Lemma fades_displayed m m' :
  Store.fades m m' ->
  is_bot m' = is_bot m /\
  (displayed m' = true -> displayed m = true) /\
  (is_bot m = false -> displayed m' = true).
Proof.
  intros (_ & Hs & _ & Hv).
  assert (Hb : is_bot m' = is_bot m) by (unfold is_bot; rewrite Hs; reflexivity).
  split; [exact Hb|]. unfold displayed, Message.is_visible. rewrite Hb.
  destruct (is_bot m); simpl.
  - split; [|discriminate].
    destruct Hv as [-> | ->]; [auto | discriminate].
  - rewrite !andb_false_r. simpl. split; reflexivity.
Qed.

(** X8.  What is on screen only shrinks by the hiding of bot messages: a
    stored message that is not a bot message is displayed in every later
    state, whatever became of its [visible], and a message that is not
    displayed is never displayed again. *)
Theorem display_only_loses_bot_messages (s : State) (trace : list (Z * Event))
    (i : nat) (m : Message.t) :
  messages s !! i = Some m ->
  exists m', messages (run s trace) !! i = Some m' /\
             Message.text m' = Message.text m /\
             (is_bot m = false -> displayed m' = true) /\
             (displayed m = false -> displayed m' = false).
Proof.
  intros Hi.
  destruct (extends_lookup _ _ i m (run_extends s trace) Hi) as (m' & Hi' & Hf).
  exists m'. split; [exact Hi'|].
  destruct (fades_displayed m m' Hf) as (_ & Hshown & Hnonbot).
  destruct Hf as (_ & _ & Ht & _). split; [exact Ht|]. split; [exact Hnonbot|].
  intros Hd. destruct (displayed m') eqn:E; [|reflexivity].
  rewrite (Hshown eq_refl) in Hd. discriminate.
Qed.

End ChatMore.

(** ** The participant poll: its failures *)

Section AdminMore.
Import Js AdminPage AdminControls Requests.





(** *** The two halves of the poll *)

Lemma fetchParticipants_halves (alloc : nat -> positive) (outcome : completion Response)
    (s : State) :
  fetchParticipants alloc outcome s =
  fetchParticipants_end alloc outcome (fetchParticipants_begin s).
Proof. reflexivity. Qed.

End AdminMore.

(** ** The controls of the admin page *)

Section AdminControlsFacts.
Import Js AdminPage React AdminControls Requests.

Ltac split_match :=
  match goal with
  | |- context [@mbind _ _ _ _ _ ?c] => destruct c eqn:?
  | |- context [if ?b then _ else _] => destruct b eqn:?
  | |- context [match ?x with _ => _ end] => destruct x eqn:?
  end.

Ltac run_page := repeat (cbn in *; try congruence; try split_match).

Ltac unfold_page :=
  unfold reset, call_updateSettings, call_startGame, call_loadSettingsAndParticipants,
    settings_answered, users_answered, startGame_answered, updateSettings_answered,
    call_fetchParticipants, setExpandedUserId, setMessage, setTitle, setSettingsApplied,
    with_poll, fetch in *.

(** *** What a step sends *)

Lemma step_requests (p : Page) (ev : Event) :
  let p' := step p ev in
  (requests p' = requests p /\ settingsApplied p' = settingsApplied p) \/
  (requests p' = requests p ++ [GetUsers] /\ settingsApplied p' = settingsApplied p) \/
  (exists g m, requests p' = requests p ++ [PostSettings g m] /\ settingsApplied p' = true) \/
  (exists g m, requests p' = requests p ++ [PostStartGame g m] /\
     settingsApplied p = true /\ settingsApplied p' = true).
Proof.
  destruct p as [sa t m po ex g rq pe mo]. destruct ev; cbn.
  8:{ destruct (pe !! index) as [k|]; [|auto]. destruct k; cbn; unfold_page; run_page; auto. }
  all: unfold_page; run_page; eauto 8.
Qed.

Lemma starts_follow_update_snoc (l : list Request) (r : Request) :
  starts_follow_update l ->
  (forall g m, r = PostStartGame g m -> exists g' m', In (PostSettings g' m') l) ->
  starts_follow_update (l ++ [r]).
Proof.
  intros H Hr before g m after E.
  destruct after as [|x after _] using rev_ind.
  - apply app_inj_tail in E. destruct E as [-> ->]. eapply Hr. reflexivity.
  - rewrite app_comm_cons, app_assoc in E. apply app_inj_tail in E. destruct E as [E _].
    eapply H. exact E.
Qed.

Lemma step_gating (p : Page) (ev : Event) :
  (settingsApplied p = true <-> exists g m, In (PostSettings g m) (requests p)) ->
  starts_follow_update (requests p) ->
  (settingsApplied (step p ev) = true <->
     exists g m, In (PostSettings g m) (requests (step p ev))) /\
  starts_follow_update (requests (step p ev)).
Proof.
  intros Ha Hs.
  destruct (step_requests p ev) as [[Er Ea]|[[Er Ea]|[(g & m & Er & Ea)|(g & m & Er & Ea0 & Ea)]]];
    rewrite Er, Ea.
  - split; assumption.
  - split.
    + rewrite Ha. split; intros (g & m & Hin); exists g, m.
      * apply in_or_app. left. exact Hin.
      * apply in_app_or in Hin. destruct Hin as [Hin|[Hin|[]]]; [exact Hin | discriminate].
    + apply starts_follow_update_snoc; [exact Hs | discriminate].
  - split.
    + split; [intros _ | reflexivity]. exists g, m. apply in_or_app. right. left. reflexivity.
    + apply starts_follow_update_snoc; [exact Hs | discriminate].
  - split.
    + split; [intros _ | reflexivity]. destruct (proj1 Ha Ea0) as (g' & m' & Hin).
      exists g', m'. apply in_or_app. left. exact Hin.
    + apply starts_follow_update_snoc; [exact Hs |]. intros _ _ _. exact (proj1 Ha Ea0).
Qed.

Lemma run_snoc (p : Page) (trace : list Event) (ev : Event) :
  run p (trace ++ [ev]) = step (run p trace) ev.
Proof. unfold run. rewrite foldl_app. reflexivity. Qed.

Lemma reachable_gating (p : Page) :
  reachable p ->
  (settingsApplied p = true <-> exists g m, In (PostSettings g m) (requests p)) /\
  starts_follow_update (requests p).
Proof.
  intros (g & trace & ->). induction trace as [|ev trace IH] using rev_ind.
  - cbn. split.
    + split; [discriminate|]. intros (g' & m' & [H|[]]). discriminate.
    + intros before g' m' after E. destruct before as [|x [|y before]]; discriminate.
  - rewrite run_snoc. destruct IH as [Ha Hs]. apply step_gating; assumption.
Qed.

Lemma step_settingsApplied (p : Page) (ev : Event) :
  settingsApplied p = true -> settingsApplied (step p ev) = true.
Proof.
  intros H.
  destruct (step_requests p ev) as [[_ Ea]|[[_ Ea]|[(g & m & _ & Ea)|(g & m & _ & _ & Ea)]]];
    congruence.
Qed.

(** X10.  The [Start Game] button sends nothing before [Update Settings]
    was clicked: on a page reached from its mount, the button is enabled
    exactly when a settings update has been sent, every start-game request
    comes after a settings update, and the button, once enabled, stays so
    whatever happens next, also when the update is refused. *)
Theorem start_requests_follow_a_settings_update (p : Page) :
  reachable p ->
  (settingsApplied p = true <-> exists g m, In (PostSettings g m) (requests p)) /\
  starts_follow_update (requests p) /\
  (settingsApplied p = true -> forall trace, settingsApplied (run p trace) = true).
Proof.
  intros Hr. destruct (reachable_gating p Hr) as [Ha Hs].
  split; [exact Ha|]. split; [exact Hs|].
  intros H trace. induction trace as [|ev trace IH] using rev_ind; [exact H|].
  rewrite run_snoc. apply step_settingsApplied. exact IH.
Qed.


(** *** The saved title *)

Lemma In_delete_list {A} (x : A) (i : nat) (l : list A) : In x (delete i l) -> In x l.
Proof.
  revert i. induction l as [|y l IH]; intros [|i]; cbn; auto.
  intros [H|H]; [left; exact H | right; exact (IH i H)].
Qed.

Lemma step_game_title (p : Page) (ev : Event) :
  game_title (step p ev) = game_title p \/
  exists index res alloc t,
    ev = Answer index (Normal res) alloc /\ pending p !! index = Some (AfterUpdate t) /\
    ok res = true /\ game_title (step p ev) = t.
Proof.
  destruct p as [sa t m po ex g rq pe mo]. destruct ev; cbn.
  8:{ destruct (pe !! index) as [k|] eqn:Hk; [|auto]. destruct k; cbn.
      4:{ unfold_page. destruct outcome as [res|e]; cbn; [|run_page; auto].
          destruct (ok res) eqn:Hok; cbn; [|run_page; auto].
          right. exists index, res, alloc, title0. repeat split; auto. run_page. }
      all: unfold_page; run_page; auto. }
  all: unfold_page; run_page; auto.
Qed.

(** An update that waits for its answer has been sent with its title. *)
Lemma step_waiting_updates (p : Page) (ev : Event) (t : JsValue) :
  In (AfterUpdate t) (pending (step p ev)) ->
  In (AfterUpdate t) (pending p) \/
  exists m, requests (step p ev) = requests p ++ [PostSettings t m].
Proof.
  destruct p as [sa ti m po ex g rq pe mo]. destruct ev; cbn.
  8:{ destruct (pe !! index) as [k|] eqn:Hk; [auto|auto]. destruct k; cbn.
      all: unfold_page; run_page; intros H;
        repeat match goal with
        | H : In _ (_ ++ _) |- _ => apply in_app_or in H; destruct H as [H|H]
        | H : In _ (delete _ _) |- _ => apply In_delete_list in H
        | H : In _ [_] |- _ => destruct H as [H|[]]; try discriminate
        end; auto. }
  all: unfold_page; run_page; intros H;
    repeat match goal with
    | H : In _ (_ ++ _) |- _ => apply in_app_or in H; destruct H as [H|H]
    | H : In _ [_] |- _ => destruct H as [H|[]]; try discriminate
    end; auto.
  inversion H; subst. right. eexists. reflexivity.
Qed.

Lemma step_requests_grow (p : Page) (ev : Event) (r : Request) :
  In r (requests p) -> In r (requests (step p ev)).
Proof.
  intros H.
  destruct (step_requests p ev) as [[Er _]|[[Er _]|[(g & m & Er & _)|(g & m & Er & _)]]];
    rewrite Er; auto; apply in_or_app; left; exact H.
Qed.

Lemma run_waiting_updates (g : JsValue) (trace : list Event) :
  let p := run (mount g) trace in
  (forall t, In (AfterUpdate t) (pending p) -> exists m, In (PostSettings t m) (requests p)) /\
  (game_title p = g \/ exists m, In (PostSettings (game_title p) m) (requests p)).
Proof.
  induction trace as [|ev trace IH] using rev_ind.
  - cbn. split; [|left; reflexivity]. intros t [H|[]]. discriminate.
  - rewrite run_snoc. cbn zeta in *. destruct IH as [Hw Hg].
    set (p := run (mount g) trace) in *. split.
    + intros t Hin. destruct (step_waiting_updates p ev t Hin) as [H|[m H]].
      * destruct (Hw t H) as [m Hm]. exists m. apply step_requests_grow. exact Hm.
      * exists m. rewrite H. apply in_or_app. right. left. reflexivity.
    + destruct (step_game_title p ev) as [E|(i & res & alloc & t & -> & Hp & Hok & E)].
      * rewrite E. destruct Hg as [Hg|[m Hm]]; [left; exact Hg|].
        right. exists m. apply step_requests_grow. exact Hm.
      * right. rewrite E. destruct (Hw t) as [m Hm].
        { apply list_elem_of_In. eapply list_elem_of_lookup_2. exact Hp. }
        exists m. apply step_requests_grow. exact Hm.
Qed.

(** X11.  [window.game_title] is only what the server accepted: on a page
    run from its mount it is the value it had at the mount or a title sent
    in a settings update, and the only step that changes it is an ok answer
    to an update that waits, which sets it to the title the form held when
    [Update Settings] was clicked, whatever the form holds by then. *)
Theorem saved_title_is_initial_or_accepted (g : JsValue) (trace : list Event) :
  let p := run (mount g) trace in
  (game_title p = g \/ exists m, In (PostSettings (game_title p) m) (requests p)) /\
  forall ev,
    game_title (step p ev) <> game_title p ->
    exists index res alloc t,
      ev = Answer index (Normal res) alloc /\ pending p !! index = Some (AfterUpdate t) /\
      ok res = true /\ game_title (step p ev) = t /\
      exists m, In (PostSettings t m) (requests p).
Proof.
  cbn zeta. destruct (run_waiting_updates g trace) as [Hw Hg]. split; [exact Hg|].
  intros ev Hne.
  destruct (step_game_title (run (mount g) trace) ev)
    as [E|(i & res & alloc & t & -> & Hp & Hok & E)]; [contradiction|].
  exists i, res, alloc, t. repeat (split; [assumption || reflexivity|]).
  apply Hw. apply list_elem_of_In. eapply list_elem_of_lookup_2. exact Hp.
Qed.

(** *** After the unmount *)

Lemma same_view_refl (p : Page) : same_view p p.
Proof. repeat split. Qed.

Lemma step_unmounted (p : Page) (ev : Event) :
  mounted p = false ->
  same_view p (step p ev) /\ requests (step p ev) = requests p.
Proof.
  destruct p as [sa t m po ex g rq pe mo]. cbn. intros ->. unfold same_view.
  destruct ev; cbn.
  8:{ destruct (pe !! index) as [k|] eqn:Hk; [|cbn; repeat split].
      destruct k; cbn; unfold_page; run_page; repeat split. }
  all: unfold_page; run_page; repeat split.
Qed.

(** X12.  An unmounted page is inert: whatever happens after the unmount,
    the answers of the requests that waited included, the page sends no
    request and none of its state changes.  (An accepted settings update
    still writes [window.game_title], which is not the page's.) *)
Theorem unmounted_page_sends_nothing (p : Page) (trace : list Event) :
  mounted p = false ->
  same_view p (run p trace) /\ requests (run p trace) = requests p.
Proof.
  intros Hm. induction trace as [|ev trace IH] using rev_ind.
  - split; [apply same_view_refl | reflexivity].
  - rewrite run_snoc. destruct IH as [Hv Hr].
    destruct (step_unmounted (run p trace) ev) as [Hv' Hr'].
    { destruct Hv as (_ & _ & _ & _ & _ & E). congruence. }
    split; [|congruence].
    destruct Hv as (A1 & A2 & A3 & A4 & A5 & A6).
    destruct Hv' as (B1 & B2 & B3 & B4 & B5 & B6).
    unfold same_view. repeat split; congruence.
Qed.


(** *** The answer of the settings request *)

(** X13.  The answer to the settings request of the mount, on a mounted
    page.  Whatever it is, the page goes on to poll the participants, with
    loading on and no error shown: a failed load of the settings is silent.
    When the answer is ok and its body has the two settings, the form takes
    them, each with its fallback: the saved title, then [TeamText], for a
    falsy title, the empty string for a falsy message.  When the request
    is rejected, the answer is not ok, or its body is not JSON or is [null],
    the form keeps what it held. *)
Theorem settings_answer_fills_the_form_or_keeps_it
    (p : Page) (index : nat) (outcome : completion Response) (alloc : nat -> positive) :
  mounted p = true ->
  pending p !! index = Some AfterSettings ->
  let p' := step p (Answer index outcome alloc) in
  requests p' = requests p ++ [GetUsers] /\
  pending p' = delete index (pending p) ++ [AfterUsers true] /\
  poll p' = {| participants := participants (poll p); loading := true; error := None |} /\
  (forall res settings g m,
     outcome = Normal res -> ok res = true -> json res = Normal settings ->
     get settings "game_title" = Normal g -> get settings "starting_message" = Normal m ->
     title p' = js_or g (js_or (game_title p) (JsString "TeamText")) /\
     message p' = js_or m (JsString "")) /\
  ((forall res settings,
      outcome = Normal res -> ok res = true -> json res = Normal settings ->
      settings = JsNull \/ settings = JsUndefined) ->
   title p' = title p /\ message p' = message p).
Proof.
  destruct p as [sa t m po ex g rq pe mo]. cbn. intros -> Hk. rewrite Hk. cbn.
  unfold_page. cbn.
  destruct outcome as [res|e]; cbn.
  2:{ repeat split; intros; congruence. }
  destruct (ok res) eqn:Hok; cbn.
  2:{ repeat split; intros; congruence. }
  destruct (json res) as [settings|e] eqn:Hjson; cbn.
  2:{ repeat split; intros; congruence. }
  destruct (get settings "game_title") as [g0|e] eqn:Hg; cbn.
  - destruct (get settings "starting_message") as [m0|e] eqn:Hm; cbn.
    + split; [reflexivity|]. split; [reflexivity|]. split; [reflexivity|]. split.
      * intros res' s' g' m' [= <-] _ Hj Hg' Hm'. rewrite Hjson in Hj.
        injection Hj as <-. rewrite Hg in Hg'. rewrite Hm in Hm'.
        injection Hg' as <-. injection Hm' as <-. split; reflexivity.
      * intros Hnull. destruct (Hnull res settings eq_refl Hok Hjson) as [->| ->];
          discriminate.
    + destruct settings; discriminate.
  - split; [reflexivity|]. split; [reflexivity|]. split; [reflexivity|]. split.
    + intros res' s' g' m' [= <-] _ Hj Hg' _. rewrite Hjson in Hj. injection Hj as <-.
      congruence.
    + intros _. split; reflexivity.
Qed.

(** *** The participants the page shows *)

Lemma normalize_displayable (fresh : positive) (u : JsValue) (q : Participant) :
  normalize fresh u = Normal q -> displayable q.
Proof.
  destruct u; cbn; try discriminate; intros [= <-]; unfold displayable, js_or; cbn;
    try (split; [reflexivity | discriminate]).
  split.
  - destruct (truthy (default JsUndefined (props !! "messages_sent"))) eqn:E; [exact E | reflexivity].
  - intros H. destruct (truthy (default JsUndefined (props !! "player_name"))) eqn:E;
      [exact E | exact H].
Qed.

Lemma map_from_displayable (alloc : nat -> positive) (elems : list JsValue) (i : nat)
    (ps : list Participant) :
  map_from (fun i u => normalize (alloc i) u) i elems = Normal ps -> Forall displayable ps.
Proof.
  revert i ps. induction elems as [|u elems IH]; intros i ps; cbn [map_from].
  - intros [= <-]. constructor.
  - destruct (normalize (alloc i) u) as [q|e] eqn:E; cbn; [|discriminate].
    destruct (map_from (fun i u => normalize (alloc i) u) (S i) elems) as [qs|e] eqn:E';
      cbn; [|discriminate].
    intros [= <-]. constructor; [exact (normalize_displayable _ _ _ E) | exact (IH _ _ E')].
Qed.

Lemma fetchParticipants_end_displayable (alloc : nat -> positive)
    (outcome : completion Response) (s : State) :
  Forall displayable (participants s) ->
  Forall displayable (participants (fetchParticipants_end alloc outcome s)).
Proof.
  intros H. unfold fetchParticipants_end.
  destruct outcome as [res|e]; cbn; [|exact H].
  destruct (ok res); cbn; [|exact H].
  destruct (json res) as [data|e]; cbn; [|exact H].
  destruct data; cbn; try exact H.
  destruct (map_from (fun i u => normalize (alloc i) u) 0 elems) as [ps|e] eqn:E; cbn;
    [|exact H].
  exact (map_from_displayable _ _ _ _ E).
Qed.

Lemma step_participants (p : Page) (ev : Event) :
  participants (poll (step p ev)) = participants (poll p) \/
  exists alloc outcome s,
    participants s = participants (poll p) /\
    participants (poll (step p ev)) = participants (fetchParticipants_end alloc outcome s).
Proof.
  destruct p as [sa t m po ex g rq pe mo]. destruct ev; cbn.
  8:{ destruct (pe !! index) as [k|] eqn:Hk; [|auto]. destruct k; cbn.
      2:{ unfold users_answered, with_poll. cbn. destruct mo; cbn; [|destruct from_load; auto].
          right. exists alloc, outcome, po. split; [reflexivity|].
          destruct from_load; reflexivity. }
      all: unfold_page; unfold fetchParticipants_begin; run_page; auto. }
  all: unfold_page; unfold fetchParticipants_begin; run_page; auto.
Qed.

Lemma reachable_displayable (p : Page) :
  reachable p -> Forall displayable (participants (poll p)).
Proof.
  intros (g & trace & ->). induction trace as [|ev trace IH] using rev_ind.
  - cbn. constructor.
  - rewrite run_snoc.
    destruct (step_participants (run (mount g) trace) ev) as [E|(alloc & outcome & s & Es & E)];
      rewrite E; [exact IH|].
    apply fetchParticipants_end_displayable. rewrite Es. exact IH.
Qed.

Lemma truthy_strict_equals (a b : JsValue) :
  strict_equals a b = true -> truthy a = truthy b.
Proof.
  destruct a, b; cbn; try discriminate; try reflexivity.
  - destruct b, b0; cbn; congruence.
  - destruct x as [q|n], x0 as [q0|n0]; cbn; try discriminate; [|reflexivity].
    intros H. apply Qeq_bool_iff in H. f_equal. apply eq_true_iff_eq.
    rewrite !Qeq_bool_iff. rewrite H. reflexivity.
  - intros H. apply string_eqb_eq in H. congruence.
Qed.

Lemma find_first {A} (f : A -> bool) (l : list A) (u : A) :
  List.find f l = Some u ->
  exists j, l !! j = Some u /\ f u = true /\
    forall k w, (k < j)%nat -> l !! k = Some w -> f w = false.
Proof.
  induction l as [|x l IH]; cbn; [discriminate|].
  destruct (f x) eqn:E.
  - intros [= <-]. exists 0%nat. repeat split; auto. intros k w Hk. lia.
  - intros H. destruct (IH H) as (j & Hj & Hf & Hlt). exists (S j). repeat split; auto.
    intros [|k] w Hk; cbn; [intros [= <-]; exact E | apply Hlt; lia].
Qed.

Lemma find_before {A} (f : A -> bool) (l : list A) (i : nat) (u : A) :
  l !! i = Some u -> f u = true ->
  exists j v, (j <= i)%nat /\ List.find f l = Some v /\ l !! j = Some v.
Proof.
  revert i. induction l as [|x l IH]; intros i; [discriminate|].
  cbn [List.find]. destruct (f x) eqn:E.
  - intros _ _. exists 0%nat, x. repeat split; auto. lia.
  - destruct i as [|i]; cbn.
    + intros [= <-]. congruence.
    + intros Hi Hf. destruct (IH i Hi Hf) as (j & v & Hle & Hfind & Hj).
      exists (S j), v. repeat split; auto. lia.
Qed.

(** *** What the page draws *)

Lemma map_from_pure {A} (f : JsValue -> A) (elems : list JsValue) (i : nat) :
  map_from (fun _ m => mret (f m)) i elems = Normal (List.map f elems).
Proof.
  revert i. induction elems as [|m elems IH]; intros i; [reflexivity|].
  cbn [map_from]. rewrite IH. reflexivity.
Qed.

Lemma forallb_chips (ps : list Participant) :
  forallb (fun c => renderable (label c)) (List.map chip ps) =
  forallb (fun u => renderable (player_name u)) ps.
Proof. induction ps as [|u ps IH]; simpl; [reflexivity|]. rewrite IH. reflexivity. Qed.

Lemma labels_render_In (p : Page) (u : Participant) :
  labels_render p = true -> In u (participants (poll p)) -> renderable (player_name u) = true.
Proof.
  unfold labels_render. intros H Hin.
  exact (proj1 (forallb_forall _ _) H u Hin).
Qed.

(** The render once the accordion's function returned. *)
Lemma render_drawn (fresh : positive) (p : Page) (a : option Accordion) :
  accordion fresh p = Normal a ->
  match a with
  | Some x => labels_render p = true -> renderable (heading x) && renderable (count x) = true
  | None => True
  end ->
  render fresh p = drawn_with p a.
Proof.
  intros Ha Hc. unfold render, drawn_with. rewrite Ha. cbn.
  unfold children_render. cbn [chips selected]. rewrite forallb_chips.
  fold (labels_render p). destruct (labels_render p); [|reflexivity].
  destruct a as [x|]; [rewrite (Hc eq_refl)|]; reflexivity.
Qed.

Lemma strict_equals_zero_number (n : JsValue) :
  strict_equals n (JsInt 0) = true -> renderable n = true.
Proof. destruct n; cbn; try discriminate. reflexivity. Qed.

Lemma length_nonzero {A} (x : A) (l : list A) :
  strict_equals (JsInt (Z.of_nat (List.length (x :: l)))) (JsInt 0) = false.
Proof.
  destruct (strict_equals _ _) eqn:E; [|reflexivity]. exfalso.
  unfold JsInt in E. cbn [strict_equals number_eqb] in E.
  apply Qeq_bool_iff in E. apply (proj1 (inject_Z_injective _ _)) in E.
  simpl List.length in E. lia.
Qed.

(** The render over displayable records. *)
Lemma render_of_displayable (fresh : positive) (p : Page) :
  Forall displayable (participants (poll p)) ->
  truthy (expandedUserId p) = true ->
  (exists j u,
     first_with_id (participants (poll p)) (expandedUserId p) j u /\
     List.find (fun q => strict_equals (user_id q) (expandedUserId p)) (participants (poll p))
       = Some u /\
     draws_record fresh p u) \/
  ((forall u, In u (participants (poll p)) ->
      strict_equals (user_id u) (expandedUserId p) = false) /\
   render fresh p =
   if renderable (expandedUserId p)
   then drawn_with p (Some {| heading := expandedUserId p; count := JsInt 0; items := [] |})
   else Throw InvalidChild).
Proof.
  intros Hd Ht.
  destruct (List.find _ (participants (poll p))) as [u|] eqn:E.
  - left. destruct (find_first _ _ _ E) as (j & Hj & Hf & Hlt).
    exists j, u. split; [repeat split; assumption|]. split; [reflexivity|].
    assert (Hin : In u (participants (poll p))).
    { apply list_elem_of_In. eapply list_elem_of_lookup_2. exact Hj. }
    destruct (Forall_lookup_1 _ _ _ _ Hd Hj) as [Hmsgs Hname].
    assert (Hn : truthy (player_name u) = true).
    { apply Hname. rewrite (truthy_strict_equals _ _ Hf). exact Ht. }
    assert (Hacc : forall n listed,
              length_of (messages_sent u) = Normal n ->
              (if strict_equals n (JsInt 0) then mret []
               else array_map (fun _ m => mret (item m)) (messages_sent u)) = Normal listed ->
              accordion fresh p =
              Normal (Some {| heading := player_name u; count := n; items := listed |})).
    { intros n listed Hl Hi. unfold accordion. rewrite Ht, E. cbn [optional].
      unfold js_or. rewrite Hmsgs, Hn, Hl. cbn. rewrite Hi. reflexivity. }
    split.
    + intros r elems Hm. apply render_drawn.
      * apply Hacc; rewrite Hm; [reflexivity|].
        destruct elems as [|m elems]; [reflexivity|].
        rewrite length_nonzero. cbn [array_map]. apply map_from_pure.
      * intros Hl. cbn [heading count]. rewrite (labels_render_In p u Hl Hin). reflexivity.
    + intros Hna n Hl. split.
      * intros Hz. unfold render, accordion. rewrite Ht, E. cbn [optional].
        unfold js_or. rewrite Hmsgs, Hn, Hl. cbn. rewrite Hz.
        destruct (messages_sent u) eqn:Em; try reflexivity.
        exfalso. apply (Hna ref elems). reflexivity.
      * intros Hz. apply render_drawn.
        -- apply Hacc; [exact Hl|]. rewrite Hz. reflexivity.
        -- intros Hlab. cbn [heading count]. rewrite (labels_render_In p u Hlab Hin).
           rewrite (strict_equals_zero_number n Hz). reflexivity.
  - right. split; [intros u Hu; exact (find_none _ _ E u Hu)|].
    assert (Hacc : accordion fresh p =
                   Normal (Some {| heading := expandedUserId p; count := JsInt 0; items := [] |})).
    { unfold accordion. rewrite Ht, E. cbn [optional]. unfold js_or. reflexivity. }
    unfold render. rewrite Hacc. cbn. unfold children_render, drawn_with.
    cbn [chips selected heading count]. rewrite forallb_chips. fold (labels_render p).
    destruct (labels_render p), (renderable (expandedUserId p)); reflexivity.
Qed.


Lemma render_unselected (fresh : positive) (p : Page) :
  truthy (expandedUserId p) = false -> render fresh p = drawn_with p None.
Proof.
  intros Hf. apply render_drawn; [|exact I]. unfold accordion. rewrite Hf. reflexivity.
Qed.

(** X15.  A click on the chip at [index], on a mounted page reached from
    its mount; [u] is the record of the chip.  The participants stay.  If
    [u]'s id is the selected one, nothing is selected any more and the page
    is drawn without an accordion.  Otherwise [u]'s id becomes the selected
    one; the page is drawn without an accordion when that id is falsy, and
    otherwise the accordion is for the first record with that id, which is
    [u] or an earlier one with the same id: the page is drawn with it, or
    the render throws, as that record's [messages_sent] has it. *)
Theorem chip_click_toggles_the_accordion (fresh : positive) (p : Page) (index : nat)
    (u : Participant) :
  reachable p ->
  mounted p = true ->
  participants (poll p) !! index = Some u ->
  let p' := step p (ClickChip index) in
  participants (poll p') = participants (poll p) /\
  (strict_equals (expandedUserId p) (user_id u) = true ->
     expandedUserId p' = JsNull /\ render fresh p' = drawn_with p' None) /\
  (strict_equals (expandedUserId p) (user_id u) = false ->
     expandedUserId p' = user_id u /\
     (truthy (user_id u) = false -> render fresh p' = drawn_with p' None) /\
     (truthy (user_id u) = true ->
        exists j v, (j <= index)%nat /\
          first_with_id (participants (poll p)) (user_id u) j v /\
          draws_record fresh p' v)).
Proof.
  intros Hr Hm Hu p'. pose proof (reachable_displayable p Hr) as Hd.
  assert (Hp' : p' = set_expandedUserId (toggle (user_id u) (expandedUserId p)) p).
  { subst p'. cbn [step]. rewrite Hu. unfold setExpandedUserId. rewrite Hm. reflexivity. }
  rewrite Hp'. clear Hp' p'. unfold toggle.
  split; [reflexivity|]. split.
  - intros ->. split; [reflexivity|]. apply render_unselected. reflexivity.
  - intros ->. split; [reflexivity|]. split.
    + intros Hf. apply render_unselected. exact Hf.
    + intros Ht. set (p' := set_expandedUserId (user_id u) p).
      destruct (find_before (fun q => strict_equals (user_id q) (user_id u))
                  (participants (poll p)) index u Hu (strict_equals_refl _))
        as (j & v & Hle & Hfind & Hj).
      destruct (render_of_displayable fresh p' Hd Ht)
        as [(j' & v' & Hfirst & Hfind' & Hdraw)|[Hnone _]].
      * change (participants (poll p')) with (participants (poll p)) in Hfind', Hfirst.
        change (expandedUserId p') with (user_id u) in Hfind', Hfirst.
        rewrite Hfind in Hfind'. injection Hfind' as <-.
        exists j', v. split; [|split; [exact Hfirst | exact Hdraw]].
        destruct Hfirst as (_ & _ & Hlt).
        destruct (Nat.le_gt_cases j' index) as [H|H]; [exact H|].
        pose proof (Hlt index u H Hu) as Hx.
        rewrite strict_equals_refl in Hx. discriminate.
      * exfalso.
        assert (Hin : In u (participants (poll p))).
        { apply list_elem_of_In. eapply list_elem_of_lookup_2. exact Hu. }
        pose proof (Hnone u Hin) as Hx.
        change (expandedUserId p') with (user_id u) in Hx.
        rewrite strict_equals_refl in Hx. discriminate.
Qed.

(** *** Reset *)

Lemma step_edit (p : Page) (ev : Event) :
  is_edit ev = true ->
  game_title (step p ev) = game_title p /\ requests (step p ev) = requests p /\
  poll (step p ev) = poll p /\ mounted (step p ev) = mounted p /\
  pending (step p ev) = pending p.
Proof.
  destruct p as [sa t m po ex g rq pe mo].
  destruct ev; cbn; try discriminate; intros _; unfold_page; run_page; repeat split.
Qed.

(** X16.  Reset after an accepted update.  On a mounted page, once an
    update that waited got an ok answer, and whatever was typed in the form
    since, [Reset] puts the accepted title back in the title field, or
    [TeamText] when that title is falsy, and empties the message; it sends
    nothing, and the error the update cleared stays cleared. *)
Theorem reset_restores_the_accepted_title
    (p : Page) (index : nat) (t : JsValue) (res : Response) (alloc : nat -> positive)
    (edits : list Event) :
  mounted p = true ->
  pending p !! index = Some (AfterUpdate t) ->
  ok res = true ->
  forallb is_edit edits = true ->
  let p1 := run (step p (Answer index (Normal res) alloc)) edits in
  let p2 := step p1 ClickReset in
  title p2 = js_or t (JsString "TeamText") /\ message p2 = JsString "" /\
  game_title p2 = t /\ requests p2 = requests p /\
  poll p2 = setError None (poll p).
Proof.
  intros Hm Hk Hok He. cbn zeta.
  set (p0 := step p (Answer index (Normal res) alloc)).
  assert (H0 : game_title p0 = t /\ requests p0 = requests p /\
               poll p0 = setError None (poll p) /\ mounted p0 = true).
  { subst p0. destruct p as [sa ti m po ex g rq pe mo]. cbn in *. subst mo.
    rewrite Hk. cbn. unfold updateSettings_answered. cbn. rewrite Hok. cbn.
    repeat split. }
  assert (H1 : game_title (run p0 edits) = t /\ requests (run p0 edits) = requests p /\
               poll (run p0 edits) = setError None (poll p) /\
               mounted (run p0 edits) = true).
  { induction edits as [|ev edits IH] using rev_ind; [exact H0|].
    rewrite forallb_app in He. apply andb_true_iff in He. destruct He as [He1 He2].
    cbn in He2. rewrite andb_true_r in He2.
    rewrite run_snoc. destruct (IH He1) as (A & B & C & D).
    destruct (step_edit (run p0 edits) ev He2) as (A' & B' & C' & D' & _).
    repeat split; congruence. }
  destruct H1 as (A & B & C & D).
  destruct (run p0 edits) as [sa ti m po ex g rq pe mo]. cbn in *. subst.
  repeat split.
Qed.

End AdminControlsFacts.

(** ** The further properties at sample views and pages *)

Section MoreInstances.
Import Js TextChat View Timers ChatRender Examples MoreExamples.

(** The second bot message of [two_timers_view] has its timer, and the
    pending timeout 3 is the one of its entry. *)
Lemma timers_track_visible_bot_messages_witness :
  JsMap.has (JsInt 7) (visibleTimers two_timers_view) = true /\
  exists st, In (JsInt 7, {| tid := 3; start := st |}) (visibleTimers two_timers_view).
Proof.
  destruct (timers_track_visible_bot_messages two_timers_view
              (reachable_from_mount ann true 1000%Z _)) as (_ & _ & Hh & Hv).
  split.
  - assert (Hm : mounted two_timers_view = true) by (vm_compute; reflexivity).
    apply (Hv Hm {| Message.id := JsInt 7; Message.sender := BOT;
                    Message.text := JsString "yo"; Message.visible := Some true |}).
    + vm_compute. right. left. reflexivity.
    + vm_compute. reflexivity.
    + vm_compute. reflexivity.
  - apply Hh. vm_compute. reflexivity.
Defined.



(** After the close, typing and submitting sends nothing. *)
Lemma dropped_connection_is_final_witness :
  socket closed_view = Some CLOSED /\
  connected (run closed_view [(1400%Z, Change "hi"); (1500%Z, Submit false)]) = false /\
  sent (run closed_view [(1400%Z, Change "hi"); (1500%Z, Submit false)]) = sent closed_view.
Proof.
  assert (Hc : socket closed_view = Some CLOSED) by (vm_compute; reflexivity).
  split; [exact Hc|].
  apply (dropped_connection_is_final closed_view
           [(1400%Z, Change "hi"); (1500%Z, Submit false)]
           (reachable_from_mount ann true 1000%Z _)).
  right. left. exact Hc.
Defined.

(** The user submits [" hi "] at 1500 on a connected view. *)
Lemma send_is_transmitted_or_logged_witness :
  text (step typed_view (1500%Z, Submit false)) = EmptyString /\
  last (messages (step typed_view (1500%Z, Submit false))) = Some hi_message /\
  exists f, sent (step typed_view (1500%Z, Submit false)) = sent typed_view ++ [f] /\
            echoes f hi_message.
Proof.
  assert (Hm : mounted typed_view = true) by (vm_compute; reflexivity).
  assert (Ht : trim (text typed_view) <> EmptyString) by (vm_compute; discriminate).
  destruct (send_is_transmitted_or_logged typed_view 1500%Z false Hm Ht)
    as (H1 & H2 & H3 & _).
  split; [exact H1|]. split; [exact H2|].
  apply H3; [vm_compute; reflexivity | reflexivity].
Defined.

(** The frame sent in [collision_view] is that of a stored message. *)
Lemma sent_frames_echo_stored_messages_witness :
  In hi_frame (sent collision_view) /\
  exists m, In m (messages collision_view) /\ echoes hi_frame m.
Proof.
  assert (Hin : In hi_frame (sent collision_view)) by (vm_compute; left; reflexivity).
  split; [exact Hin|].
  exact (sent_frames_echo_stored_messages collision_view
           (reachable_from_mount ann true 1000%Z _) hi_frame Hin).
Defined.

(** The message the user sent in [collision_view]. *)
Lemma store_holds_bot_messages_and_own_echoes_witness :
  In hi_message (messages collision_view) /\
  own_echo (player_name collision_view) hi_message /\
  mine collision_view hi_message = true /\ displayed hi_message = true.
Proof.
  assert (Hin : In hi_message (messages collision_view))
    by (vm_compute; right; left; reflexivity).
  split; [exact Hin|].
  apply (store_holds_bot_messages_and_own_echoes collision_view
           (reachable_from_mount ann true 1000%Z _) hi_message Hin).
  vm_compute. reflexivity.
Defined.

(** The user's message of [collision_view] is still displayed after the
    timer of the bot message with the same id fired. *)
Lemma display_only_loses_bot_messages_witness :
  exists m', messages (run collision_view [(6600%Z, Timeout 4%nat)]) !! 1%nat = Some m' /\
             Message.text m' = Message.text hi_message /\
             (is_bot hi_message = false -> displayed m' = true) /\
             (displayed hi_message = false -> displayed m' = false).
Proof.
  apply (display_only_loses_bot_messages collision_view [(6600%Z, Timeout 4%nat)] 1%nat
           hi_message).
  vm_compute. reflexivity.
Defined.


End MoreInstances.

Section PageInstances.
Import Js AdminPage React AdminControls Requests AdminExamples PageExamples.

Lemma reachable_page_from_mount (g : JsValue) (trace : list Event) :
  reachable (run (mount g) trace).
Proof. exists g, trace. reflexivity. Defined.

(** After a refused update the button was enabled and the click sent its
    request, after that of the update. *)
Lemma start_requests_follow_a_settings_update_witness :
  In (PostStartGame (JsString "Quiz 2") (JsString "")) (requests started_page) /\
  settingsApplied started_page = true /\
  starts_follow_update (requests started_page).
Proof.
  destruct (start_requests_follow_a_settings_update started_page
              (reachable_page_from_mount JsUndefined _)) as (Ha & Hs & _).
  split; [vm_compute; auto 10|]. split; [|exact Hs].
  apply Ha. exists (JsString "Quiz 2"), (JsString ""). vm_compute. auto 10.
Defined.

(** The page was left while its update waited: the accepted answer, a
    tick and a click change nothing of it. *)
Lemma unmounted_page_sends_nothing_witness :
  mounted left_page = false /\
  same_view left_page (run left_page [Answer 0 (Normal accepted) alloc; Tick; ClickStart]) /\
  requests (run left_page [Answer 0 (Normal accepted) alloc; Tick; ClickStart])
  = requests left_page.
Proof.
  assert (Hm : mounted left_page = false) by (vm_compute; reflexivity).
  split; [exact Hm|].
  exact (unmounted_page_sends_nothing left_page _ Hm).
Defined.

(** The settings arrive on the page just mounted. *)
Lemma settings_answer_fills_the_form_or_keeps_it_witness :
  title (step (mount JsUndefined) (Answer 0 (Normal settings_response) alloc)) = JsString "Quiz" /\
  message (step (mount JsUndefined) (Answer 0 (Normal settings_response) alloc)) = JsString "" /\
  requests (step (mount JsUndefined) (Answer 0 (Normal settings_response) alloc))
  = [GetSettings; GetUsers].
Proof.
  assert (Hm : mounted (mount JsUndefined) = true) by reflexivity.
  assert (Hk : pending (mount JsUndefined) !! 0%nat = Some AfterSettings) by reflexivity.
  destruct (settings_answer_fills_the_form_or_keeps_it (mount JsUndefined) 0%nat
              (Normal settings_response) alloc Hm Hk) as (Hr & _ & _ & Hfill & _).
  destruct (Hfill settings_response settings_body (JsString "Quiz") (JsString ""))
    as [Ht Hmsg]; try (vm_compute; reflexivity).
  split; [exact Ht|]. split; [exact Hmsg | exact Hr].
Defined.


(** The chip of the second participant is clicked on the loaded page. *)
Lemma chip_click_toggles_the_accordion_witness :
  expandedUserId (step loaded_page (ClickChip 1)) = JsString "u1" /\
  exists j v, (j <= 1)%nat /\
    first_with_id (participants (poll loaded_page)) (JsString "u1") j v /\
    draws_record 9 (step loaded_page (ClickChip 1)) v.
Proof.
  assert (Hm : mounted loaded_page = true) by (vm_compute; reflexivity).
  assert (Hu : participants (poll loaded_page) !! 1%nat =
               Some {| user_id := JsString "u1"; player_name := JsString "u1";
                       connected := true; messages_sent := JsArray 11 [] |})
    by (vm_compute; reflexivity).
  destruct (chip_click_toggles_the_accordion 9 loaded_page 1%nat _
              (reachable_page_from_mount JsUndefined _) Hm Hu) as (_ & _ & H).
  destruct H as (He & _ & Ha); [vm_compute; reflexivity|].
  split; [exact He|]. apply Ha. vm_compute. reflexivity.
Defined.

(** The update of [updating_page] is accepted, the title is edited again
    and [Reset] is clicked. *)
Lemma reset_restores_the_accepted_title_witness :
  title (step (run (step updating_page (Answer 0 (Normal accepted) alloc))
                 [ChangeTitle "Quiz 3"; ChangeMessage "go"]) ClickReset)
  = JsString "Quiz 2" /\
  message (step (run (step updating_page (Answer 0 (Normal accepted) alloc))
                   [ChangeTitle "Quiz 3"; ChangeMessage "go"]) ClickReset)
  = JsString "".
Proof.
  assert (Hm : mounted updating_page = true) by (vm_compute; reflexivity).
  assert (Hk : pending updating_page !! 0%nat = Some (AfterUpdate (JsString "Quiz 2")))
    by (vm_compute; reflexivity).
  destruct (reset_restores_the_accepted_title updating_page 0%nat (JsString "Quiz 2")
              accepted alloc [ChangeTitle "Quiz 3"; ChangeMessage "go"] Hm Hk eq_refl eq_refl)
    as (Ht & Hmsg & _).
  split; [exact Ht | exact Hmsg].
Defined.

End PageInstances.
